(** * CardVault ledger and analytics: a shallow embedding

    The development follows these parts of the application:
    - the entity types ([types/index.ts]),
    - the [storage] object ([utils/storage.ts]): customers, transactions and
      payments kept as whole collections in a key-value store,
    - the aggregation engine ([utils/analytics.ts]): dashboard statistics,
      monthly rankings, revenue chart, payment status,
    - the totals of [generateReportSummary] ([utils/export.ts]).

    Modelling conventions.
    - A TypeScript [number] that holds money is a value of a type [N] with the
      operations of the class [JsNumber].  Two instances are given: [Z]
      (amounts in exact arithmetic, used for every universally quantified
      statement) and [float] (IEEE-754 binary64, the very representation the
      JavaScript engine uses, used to evaluate the code on concrete decimal
      amounts).  Counters ([length], [rank], [transactionCount]) are [nat].
    - A [Date] object is its time value: [Some ms] or [None] for an invalid
      date (NaN).  Parsing a string and reading the local month and year are
      services of the JavaScript runtime; they are the fields of the class
      [DateRuntime].  The clock ([new Date()]), the fresh identifier
      ([generateId()]) and the current ISO timestamp are explicit arguments.
    - The key-value store is the record [Store]; the asynchronous [storage]
      methods are computations in the state monad [IO] over it, written in
      the order of the source.  Reading and writing a collection always
      succeed (the source falls back to an empty collection when a read
      fails).
    - A JavaScript [Map] is an insertion-ordered association list ([JsMap]).
*)

From Stdlib Require Import ZArith Lia PrimFloat Ascii String.
From stdpp Require Import base option list strings sorting.

Local Open Scope Z_scope.

(** ** Numbers *)

Class JsNumber (N : Type) := {
  num_zero : N;
  num_add : N → N → N;
  num_sub : N → N → N;
  (** [a < b] and [a <= b]; [a > b] is [num_ltb b a], [a >= b] is [num_leb b a]. *)
  num_ltb : N → N → bool;
  num_leb : N → N → bool;
  (** [ToBoolean x = false]: the number is [0], [-0] or [NaN]. *)
  num_falsy : N → bool
}.

#[export] Instance Z_number : JsNumber Z := {|
  num_zero := 0;
  num_add := Z.add;
  num_sub := Z.sub;
  num_ltb := Z.ltb;
  num_leb := Z.leb;
  num_falsy := λ x, x =? 0
|}.

#[export] Instance float_number : JsNumber float := {|
  num_zero := PrimFloat.zero;
  num_add := PrimFloat.add;
  num_sub := PrimFloat.sub;
  num_ltb := PrimFloat.ltb;
  num_leb := PrimFloat.leb;
  num_falsy := λ x, PrimFloat.is_zero x || PrimFloat.is_nan x
|}.

(** [x || 0] on a possibly missing number ([undefined] is falsy too). *)
Definition or_zero {N} `{JsNumber N} (x : option N) : N :=
  match x with
  | Some v => if num_falsy v then num_zero else v
  | None => num_zero
  end.

(** ** Dates *)

(** A [Date] object, identified with its time value in milliseconds. *)
Definition JsDate := option Z.

Class DateRuntime := {
  (** the time value of [new Date(s)] *)
  Date_parse : string → JsDate;
  (** the time value of [new Date(year, month, day)], local time *)
  Date_ymd : Z → Z → Z → Z;
  (** [getMonth()] (0 to 11) and [getFullYear()] of a valid time value, in the
      local time zone *)
  getMonth : Z → Z;
  getFullYear : Z → Z;
  (** [toLocaleDateString("en-US", { month: "short" })] *)
  monthShort : Z → string
}.

(** [d.getMonth() === m && d.getFullYear() === y]; an invalid date yields NaN
    for both fields and the comparison fails. *)
Definition month_year_is `{DateRuntime} (d : JsDate) (m y : Z) : bool :=
  match d with
  | Some tv => bool_decide (getMonth tv = m) && bool_decide (getFullYear tv = y)
  | None => false
  end.

(** Relational comparison of two [Date] objects (through their time values;
    false as soon as one of them is NaN). *)
Definition date_ltb (a b : JsDate) : bool :=
  match a, b with
  | Some x, Some y => bool_decide (x < y)
  | _, _ => false
  end.

Definition date_leb (a b : JsDate) : bool :=
  match a, b with
  | Some x, Some y => bool_decide (x ≤ y)
  | _, _ => false
  end.

(** ** Entities ([types/index.ts]) *)

Record Customer := mkCustomer {
  c_id : string;
  c_name : string;
  c_businessName : string;
  c_mobile : string;
  c_email : string;
  c_address : string;
  c_businessType : string;
  c_cardImageUri : option string;
  c_createdAt : string;
  c_updatedAt : string
}.

Record ProductItem {N : Type} := mkProductItem {
  p_name : string;
  p_quantity : N;
  p_unitPrice : N;
  p_total : N
}.
Arguments ProductItem : clear implicits.

Inductive Status := paid | partial | pending.

Record Transaction {N : Type} := mkTransaction {
  t_id : string;
  t_customerId : string;
  t_date : string;
  t_products : list (ProductItem N);
  t_totalAmount : N;
  t_amountPaid : N;
  t_status : Status;
  t_notes : option string;
  t_createdAt : string
}.
Arguments Transaction : clear implicits.
Arguments mkTransaction {N}.

Inductive Method := cash | upi | bank | other.

Record Payment {N : Type} := mkPayment {
  pay_id : string;
  pay_transactionId : string;
  pay_customerId : string;
  pay_amount : N;
  pay_date : string;
  pay_method : Method;
  pay_notes : option string
}.
Arguments Payment : clear implicits.
Arguments mkPayment {N}.

#[export] Instance Status_eq_dec : EqDecision Status.
Proof. solve_decision. Defined.

(** ** JavaScript [Map] with string keys: insertion-ordered association list *)

Module JsMap.
Section defs.
Context {V : Type}.

Fixpoint get (k : string) (m : list (string * V)) : option V :=
  match m with
  | [] => None
  | (k', v) :: m' => if decide (k' = k) then Some v else get k m'
  end.

(** [set] keeps the position of a key that is already present and puts a new
    key last. *)
Fixpoint set (k : string) (v : V) (m : list (string * V)) : list (string * V) :=
  match m with
  | [] => [(k, v)]
  | (k', v') :: m' =>
      if decide (k' = k) then (k, v) :: m' else (k', v') :: set k v m'
  end.

End defs.
End JsMap.

(** ** The persistent store and the [storage] object ([utils/storage.ts]) *)

(** [Partial<Customer>]: the fields an update carries. *)
Record CustomerPatch := mkPatch {
  u_id : option string;
  u_name : option string;
  u_businessName : option string;
  u_mobile : option string;
  u_email : option string;
  u_address : option string;
  u_businessType : option string;
  u_cardImageUri : option string;
  u_createdAt : option string;
  u_updatedAt : option string
}.

(** [{ ...c, ...updates }] *)
Definition spread_customer (c : Customer) (u : CustomerPatch) : Customer :=
  {| c_id := default (c_id c) (u_id u);
     c_name := default (c_name c) (u_name u);
     c_businessName := default (c_businessName c) (u_businessName u);
     c_mobile := default (c_mobile c) (u_mobile u);
     c_email := default (c_email c) (u_email u);
     c_address := default (c_address c) (u_address u);
     c_businessType := default (c_businessType c) (u_businessType u);
     c_cardImageUri :=
       match u_cardImageUri u with Some x => Some x | None => c_cardImageUri c end;
     c_createdAt := default (c_createdAt c) (u_createdAt u);
     c_updatedAt := default (c_updatedAt c) (u_updatedAt u) |}.

Definition with_updatedAt (c : Customer) (ts : string) : Customer :=
  {| c_id := c_id c; c_name := c_name c; c_businessName := c_businessName c;
     c_mobile := c_mobile c; c_email := c_email c; c_address := c_address c;
     c_businessType := c_businessType c; c_cardImageUri := c_cardImageUri c;
     c_createdAt := c_createdAt c; c_updatedAt := ts |}.

Section storage.
Context {N : Type} `{JsNumber N}.

(** The three collections behind the keys [@cardvault/customers],
    [@cardvault/transactions] and [@cardvault/payments]. *)
Record Store := mkStore {
  s_customers : list Customer;
  s_transactions : list (Transaction N);
  s_payments : list (Payment N)
}.

(** An [async] method of [storage]: a computation over the store. *)
Definition IO (A : Type) : Type := Store → A * Store.

#[global] Instance IO_ret : MRet IO := λ A a s, (a, s).
#[global] Instance IO_bind : MBind IO :=
  λ A B f m s, let '(a, s') := m s in f a s'.

Definition exec {A} (m : IO A) (s : Store) : Store := snd (m s).
Definition eval {A} (m : IO A) (s : Store) : A := fst (m s).

Definition getCustomers : IO (list Customer) := λ s, (s_customers s, s).
Definition saveCustomers (customers : list Customer) : IO unit :=
  λ s, (tt, mkStore customers (s_transactions s) (s_payments s)).

Definition getTransactions : IO (list (Transaction N)) :=
  λ s, (s_transactions s, s).
Definition saveTransactions (transactions : list (Transaction N)) : IO unit :=
  λ s, (tt, mkStore (s_customers s) transactions (s_payments s)).

Definition getPayments : IO (list (Payment N)) := λ s, (s_payments s, s).
Definition savePayments (payments : list (Payment N)) : IO unit :=
  λ s, (tt, mkStore (s_customers s) (s_transactions s) payments).

(** [addCustomer]: the [id] and both timestamps of the argument are replaced. *)
Definition addCustomer (newId nowIso : string) (customer : Customer)
  : IO Customer :=
  customers ← getCustomers;
  let newCustomer :=
    {| c_id := newId; c_name := c_name customer;
       c_businessName := c_businessName customer;
       c_mobile := c_mobile customer; c_email := c_email customer;
       c_address := c_address customer;
       c_businessType := c_businessType customer;
       c_cardImageUri := c_cardImageUri customer;
       c_createdAt := nowIso; c_updatedAt := nowIso |} in
  saveCustomers (newCustomer :: customers);;
  mret newCustomer.

Definition updateCustomer (nowIso : string) (id : string)
    (updates : CustomerPatch) : IO (option Customer) :=
  customers ← getCustomers;
  match list_find (λ c, c_id c = id) customers with
  | None => mret None
  | Some (index, c) =>
      let c' := with_updatedAt (spread_customer c updates) nowIso in
      saveCustomers (<[index := c']> customers);;
      mret (Some c')
  end.

Definition deleteCustomer (id : string) : IO unit :=
  customers ← getCustomers;
  let filtered := filter (λ c, c_id c ≠ id) customers in
  saveCustomers filtered;;
  transactions ← getTransactions;
  let filteredTx := filter (λ t, t_customerId t ≠ id) transactions in
  saveTransactions filteredTx;;
  payments ← getPayments;
  let filteredPay := filter (λ p, pay_customerId p ≠ id) payments in
  savePayments filteredPay.

(** [addTransaction]: the [id] and [createdAt] of the argument are replaced;
    the status is stored as the caller gives it. *)
Definition addTransaction (newId nowIso : string)
    (transaction : Transaction N) : IO (Transaction N) :=
  transactions ← getTransactions;
  let newTransaction :=
    mkTransaction newId (t_customerId transaction) (t_date transaction)
      (t_products transaction) (t_totalAmount transaction)
      (t_amountPaid transaction) (t_status transaction)
      (t_notes transaction) nowIso in
  saveTransactions (newTransaction :: transactions);;
  mret newTransaction.

(** The object [addPayment] stores at [transactions[txIndex]]:
    [{ ...tx, amountPaid: newAmountPaid, status: ... }]. *)
Definition withPayment (tx : Transaction N) (payment : Payment N)
  : Transaction N :=
  let newAmountPaid := num_add (t_amountPaid tx) (pay_amount payment) in
  mkTransaction (t_id tx) (t_customerId tx) (t_date tx) (t_products tx)
    (t_totalAmount tx) newAmountPaid
    (if num_leb (t_totalAmount tx) newAmountPaid then paid
     else if num_ltb num_zero newAmountPaid then partial
     else pending)
    (t_notes tx) (t_createdAt tx).

(** [addPayment]: the [id] of the argument is replaced. *)
Definition addPayment (newId : string) (payment : Payment N)
  : IO (Payment N) :=
  payments ← getPayments;
  let newPayment :=
    mkPayment newId (pay_transactionId payment) (pay_customerId payment)
      (pay_amount payment) (pay_date payment) (pay_method payment)
      (pay_notes payment) in
  savePayments (newPayment :: payments);;
  transactions ← getTransactions;
  match list_find (λ t, t_id t = pay_transactionId payment) transactions with
  | Some (txIndex, tx) =>
      saveTransactions (<[txIndex := withPayment tx payment]> transactions)
  | None => mret tt
  end;;
  mret newPayment.

Definition getCustomerTransactions (customerId : string)
  : IO (list (Transaction N)) :=
  transactions ← getTransactions;
  mret (filter (λ t, t_customerId t = customerId) transactions).

Definition getCustomerPayments (customerId : string)
  : IO (list (Payment N)) :=
  payments ← getPayments;
  mret (filter (λ p, pay_customerId p = customerId) payments).

(** A sequence of [addPayment] calls, each with its own fresh identifier. *)
Fixpoint addPayments (calls : list (string * Payment N)) : IO unit :=
  match calls with
  | [] => mret tt
  | (newId, payment) :: rest => addPayment newId payment;; addPayments rest
  end.

End storage.
Arguments Store : clear implicits.
Arguments IO : clear implicits.

(** ** [Array.prototype.sort] with a comparator

    The sort is stable; an element moves behind another one only when the
    comparator is positive on the pair (a NaN result counts as zero). *)

Section sort.
Context {A N : Type} `{JsNumber N} (compareFn : A → A → N).

Fixpoint sort_insert (x : A) (l : list A) : list A :=
  match l with
  | [] => [x]
  | y :: l' =>
      if num_ltb num_zero (compareFn x y) then y :: sort_insert x l'
      else x :: l
  end.

Definition Array_sort (l : list A) : list A := foldr sort_insert [] l.

End sort.

(** ** The aggregation engine ([utils/analytics.ts]) *)

Record TopCustomer {N : Type} := mkTopCustomer {
  customer : option Customer;
  amount : N
}.
Arguments TopCustomer : clear implicits.
Arguments mkTopCustomer {N}.

Record DashboardStats {N : Type} := mkDashboardStats {
  totalCustomers : nat;
  thisMonthRevenue : N;
  pendingCollections : N;
  topCustomer : TopCustomer N
}.
Arguments DashboardStats : clear implicits.
Arguments mkDashboardStats {N}.

Record RankedCustomer {N : Type} := mkRankedCustomer {
  r_customer : Customer;
  r_rank : nat;
  r_totalAmount : N;
  r_transactionCount : nat
}.
Arguments RankedCustomer : clear implicits.
Arguments mkRankedCustomer {N}.

Record ChartData {N : Type} := mkChartData {
  labels : list string;
  data : list N
}.
Arguments ChartData : clear implicits.
Arguments mkChartData {N}.

Record PaymentStatusData {N : Type} := mkPaymentStatusData {
  collected : N;
  psd_pending : N
}.
Arguments PaymentStatusData : clear implicits.
Arguments mkPaymentStatusData {N}.

Section analytics.
Context {N : Type} `{JsNumber N} `{DateRuntime}.

(** The transactions of one calendar month: the [filter] that opens
    [getDashboardStats] and [getMonthlyRankings]. *)
Definition monthTransactions (m y : Z) (transactions : list (Transaction N))
  : list (Transaction N) :=
  filter (λ t, month_year_is (Date_parse (t_date t)) m y) transactions.

(** [customerTotals] of [getDashboardStats], after its [forEach]. *)
Definition customerTotals (thisMonthTransactions : list (Transaction N))
  : list (string * N) :=
  foldl (λ m t,
           let current := or_zero (JsMap.get (t_customerId t) m) in
           JsMap.set (t_customerId t) (num_add current (t_totalAmount t)) m)
        [] thisMonthTransactions.

(** The scan for the largest total: [(topCustomerId, topAmount)]. *)
Definition topScan (totals : list (string * N)) : string * N :=
  foldl (λ top e,
           if num_ltb (snd top) (snd e) then (fst e, snd e) else top)
        (""%string, num_zero) totals.

Definition getDashboardStats (now : Z) (customers : list Customer)
    (transactions : list (Transaction N)) : DashboardStats N :=
  let thisMonth := getMonth now in
  let thisYear := getFullYear now in
  let thisMonthTransactions :=
    monthTransactions thisMonth thisYear transactions in
  let thisMonthRevenue :=
    foldl (λ sum t, num_add sum (t_totalAmount t)) num_zero
      thisMonthTransactions in
  let pendingCollections :=
    foldl (λ sum t, num_add sum (num_sub (t_totalAmount t) (t_amountPaid t)))
      num_zero transactions in
  let top := topScan (customerTotals thisMonthTransactions) in
  let topCustomer := snd <$> list_find (λ c, c_id c = fst top) customers in
  mkDashboardStats (length customers) thisMonthRevenue pendingCollections
    (mkTopCustomer topCustomer (snd top)).

(** [customerStats] of [getMonthlyRankings], after its [forEach]. *)
Definition customerStats (monthTxs : list (Transaction N))
  : list (string * (N * nat)) :=
  foldl (λ m t,
           let current :=
             default (num_zero, 0%nat) (JsMap.get (t_customerId t) m) in
           JsMap.set (t_customerId t)
             (num_add (fst current) (t_totalAmount t), (snd current + 1)%nat) m)
        [] monthTxs.

(** The [rankings] array before it is sorted: one entry, with rank 0, per key
    of [customerStats] whose customer exists. *)
Definition unrankedRankings (customers : list Customer)
    (stats : list (string * (N * nat))) : list (RankedCustomer N) :=
  foldl (λ rankings e,
           match snd <$> list_find (λ c, c_id c = fst e) customers with
           | Some c =>
               rankings ++ [mkRankedCustomer c 0 (fst (snd e)) (snd (snd e))]
           | None => rankings
           end)
        [] stats.

Definition getMonthlyRankings (now : Z) (customers : list Customer)
    (transactions : list (Transaction N)) (month year : option Z)
  : list (RankedCustomer N) :=
  let targetMonth := default (getMonth now) month in
  let targetYear := default (getFullYear now) year in
  let monthTxs := monthTransactions targetMonth targetYear transactions in
  let rankings := unrankedRankings customers (customerStats monthTxs) in
  let sorted :=
    Array_sort (λ a b, num_sub (r_totalAmount b) (r_totalAmount a)) rankings in
  imap (λ index r,
          mkRankedCustomer (r_customer r) (index + 1) (r_totalAmount r)
            (r_transactionCount r))
       sorted.

(** The filter of one iteration of the loop of [getRevenueChartData]; [date]
    is the first day of the month of the iteration. *)
Definition chartFilter (date : Z) (startDate endDate : option JsDate)
    (t : Transaction N) : bool :=
  let txDate := Date_parse (t_date t) in
  let inRange :=
    match startDate, endDate with
    | Some s, Some e => date_leb s txDate && date_leb txDate e
    | _, _ => true
    end in
  inRange && month_year_is txDate (getMonth date) (getFullYear date).

(** The loop [for (let i = months - 1; i >= 0; i--)]: [k] iterations remain,
    the next one runs with [i = k - 1]. *)
Fixpoint chartLoop (now : Z) (transactions : list (Transaction N))
    (startDate endDate : option JsDate) (k : nat) (acc : ChartData N)
  : ChartData N :=
  match k with
  | O => acc
  | S k' =>
      let i := Z.of_nat k' in
      let date := Date_ymd (getFullYear now) (getMonth now - i) 1 in
      let monthName := monthShort date in
      let monthRevenue :=
        foldl (λ sum t, num_add sum (t_totalAmount t)) num_zero
          (filter (λ t, chartFilter date startDate endDate t) transactions) in
      chartLoop now transactions startDate endDate k'
        (mkChartData (labels acc ++ [monthName]) (data acc ++ [monthRevenue]))
  end.

Definition getRevenueChartData (now : Z) (transactions : list (Transaction N))
    (months : Z) (startDate endDate : option JsDate) : ChartData N :=
  chartLoop now transactions startDate endDate (Z.to_nat months)
    (mkChartData [] []).

Definition statusFilter (startDate endDate : option JsDate)
    (t : Transaction N) : bool :=
  let txDate := Date_parse (t_date t) in
  if match startDate with Some s => date_ltb txDate s | None => false end
  then false
  else if match endDate with Some e => date_ltb e txDate | None => false end
  then false
  else true.

Definition getPaymentStatusData (transactions : list (Transaction N))
    (startDate endDate : option JsDate) : PaymentStatusData N :=
  let filtered := filter (λ t, statusFilter startDate endDate t) transactions in
  let collected :=
    foldl (λ sum t, num_add sum (t_amountPaid t)) num_zero filtered in
  let pending :=
    foldl (λ sum t, num_add sum (num_sub (t_totalAmount t) (t_amountPaid t)))
      num_zero filtered in
  mkPaymentStatusData collected pending.

End analytics.

(** ** The report ([utils/export.ts])

    [generateReportSummary] returns a text; the record holds the numbers the
    template interpolates, in the order of the text (the business name, the
    date and the collection-rate line are left out). *)

Record ReportSummary {N : Type} := mkReportSummary {
  rs_totalCustomers : nat;
  rs_totalRevenue : N;
  rs_totalCollected : N;
  rs_pendingCollection : N;
  rs_totalTransactions : nat;
  rs_paid : nat;
  rs_partial : nat;
  rs_pending : nat
}.
Arguments ReportSummary : clear implicits.
Arguments mkReportSummary {N}.

Definition generateReportSummary {N} `{JsNumber N} (customers : list Customer)
    (transactions : list (Transaction N)) : ReportSummary N :=
  let totalRevenue :=
    foldl (λ sum t, num_add sum (t_totalAmount t)) num_zero transactions in
  let totalCollected :=
    foldl (λ sum t, num_add sum (t_amountPaid t)) num_zero transactions in
  let pendingAmount := num_sub totalRevenue totalCollected in
  mkReportSummary (length customers) totalRevenue totalCollected pendingAmount
    (length transactions)
    (length (filter (λ t, t_status t = paid) transactions))
    (length (filter (λ t, t_status t = partial) transactions))
    (length (filter (λ t, t_status t = pending) transactions)).

(** ** A concrete runtime: UTC as the local time zone

    Used to run the code on concrete inputs.  [Date_parse] reads the format
    [Date.prototype.toISOString] writes ([YYYY-MM-DDTHH:mm:ss.sssZ]), which is
    the format every date of the application is stored in. *)

Module UTC.

Definition msPerDay : Z := 86400000.

(** Days since 1970-01-01 of a proleptic Gregorian date ([m] from 1 to 12). *)
Definition days_from_civil (y m d : Z) : Z :=
  let y' := if m <=? 2 then y - 1 else y in
  let era := y' / 400 in
  let yoe := y' - era * 400 in
  let doy := (153 * (if 2 <? m then m - 3 else m + 9) + 2) / 5 + d - 1 in
  let doe := yoe * 365 + yoe / 4 - yoe / 100 + doy in
  era * 146097 + doe - 719468.

(** The year and the month (1 to 12) that contain a day number. *)
Definition civil_from_days (z : Z) : Z * Z :=
  let z' := z + 719468 in
  let era := z' / 146097 in
  let doe := z' - era * 146097 in
  let yoe := (doe - doe / 1460 + doe / 36524 - doe / 146096) / 365 in
  let doy := doe - (365 * yoe + yoe / 4 - yoe / 100) in
  let mp := (5 * doy + 2) / 153 in
  let m := if mp <? 10 then mp + 3 else mp - 9 in
  (yoe + era * 400 + (if m <=? 2 then 1 else 0), m).

Fixpoint parse_digits (s : string) (acc : Z) : option Z :=
  match s with
  | EmptyString => Some acc
  | String c s' =>
      let n := Z.of_nat (Ascii.nat_of_ascii c) - 48 in
      if (0 <=? n) && (n <=? 9) then parse_digits s' (10 * acc + n) else None
  end.

Definition digits_at (s : string) (start len : nat) : option Z :=
  parse_digits (String.substring start len s) 0.

Definition char_is (s : string) (i : nat) (c : Ascii.ascii) : bool :=
  bool_decide (String.get i s = Some c).

Definition parse (s : string) : JsDate :=
  if bool_decide (String.length s = 24%nat)
     && char_is s 4 "-"%char && char_is s 7 "-"%char
     && char_is s 10 "T"%char && char_is s 13 ":"%char
     && char_is s 16 ":"%char && char_is s 19 "."%char
     && char_is s 23 "Z"%char
  then
    y ← digits_at s 0 4; mo ← digits_at s 5 2; d ← digits_at s 8 2;
    h ← digits_at s 11 2; mi ← digits_at s 14 2; sec ← digits_at s 17 2;
    ms ← digits_at s 20 3;
    if (1 <=? mo) && (mo <=? 12) && (1 <=? d) && (d <=? 31)
       && (h <=? 23) && (mi <=? 59) && (sec <=? 59)
    then Some ((((days_from_civil y mo d * 24 + h) * 60 + mi) * 60 + sec)
               * 1000 + ms)
    else None
  else None.

(** [new Date(year, month, day)]: a year from 0 to 99 means 1900 + year, and
    a month outside 0..11 carries into the year. *)
Definition ymd (year month day : Z) : Z :=
  let yr := if (0 <=? year) && (year <=? 99) then 1900 + year else year in
  (days_from_civil (yr + month / 12) (month mod 12 + 1) 1 + (day - 1))
  * msPerDay.

Definition month_of (tv : Z) : Z := snd (civil_from_days (tv / msPerDay)) - 1.
Definition year_of (tv : Z) : Z := fst (civil_from_days (tv / msPerDay)).

Definition month_names : list string :=
  ["Jan"; "Feb"; "Mar"; "Apr"; "May"; "Jun";
   "Jul"; "Aug"; "Sep"; "Oct"; "Nov"; "Dec"]%string.

Definition short_name (tv : Z) : string :=
  default ""%string (month_names !! Z.to_nat (month_of tv)).

Definition runtime : DateRuntime := {|
  Date_parse := parse;
  Date_ymd := ymd;
  getMonth := month_of;
  getFullYear := year_of;
  monthShort := short_name
|}.

End UTC.

(** ** Specification-side notions

    Definitions that follow the wording of the specification; the theorems
    compare them with the code above. *)

(** The sum of [f] over a list, amounts in exact arithmetic. *)
Definition sum_of {A : Type} (f : A → Z) (l : list A) : Z :=
  foldr (λ x s, f x + s) 0 l.

(** The three-way status rule as the data model words it:
    paid iff [amountPaid >= totalAmount], pending iff [amountPaid <= 0],
    partial otherwise. *)
Definition status_rule_as_stated (tx : Transaction Z) : Prop :=
  (t_status tx = paid ↔ t_amountPaid tx >= t_totalAmount tx)
  ∧ (t_status tx = pending ↔ t_amountPaid tx ≤ 0)
  ∧ (t_status tx = partial ↔
       ¬ t_amountPaid tx >= t_totalAmount tx ∧ ¬ t_amountPaid tx ≤ 0).

(** The rule the code follows: the test for paid comes first. *)
Definition status_rule (tx : Transaction Z) : Prop :=
  (t_status tx = paid ↔ t_amountPaid tx >= t_totalAmount tx)
  ∧ (t_status tx = pending ↔
       t_amountPaid tx ≤ 0 ∧ t_amountPaid tx < t_totalAmount tx)
  ∧ (t_status tx = partial ↔ 0 < t_amountPaid tx < t_totalAmount tx).

(** "The date of [t] falls in calendar month [m] (0 to 11) of year [y]",
    local time. *)
Definition in_calendar_month `{DateRuntime} {N} (m y : Z) (t : Transaction N)
  : Prop :=
  match Date_parse (t_date t) with
  | Some tv => getMonth tv = m ∧ getFullYear tv = y
  | None => False
  end.

#[export] Instance in_calendar_month_dec `{DateRuntime} {N} m y
  (t : Transaction N) : Decision (in_calendar_month m y t).
Proof. unfold in_calendar_month. destruct (Date_parse _); apply _. Defined.

(** "The date of [t] lies within [[startDate, endDate]]", bounds included. *)
Definition in_date_range `{DateRuntime} {N} (startDate endDate : JsDate)
    (t : Transaction N) : Prop :=
  match startDate, Date_parse (t_date t), endDate with
  | Some s, Some tv, Some e => s ≤ tv ≤ e
  | _, _, _ => False
  end.

#[export] Instance in_date_range_dec `{DateRuntime} {N} s e
  (t : Transaction N) : Decision (in_date_range s e t).
Proof.
  unfold in_date_range. repeat case_match; apply _.
Defined.

(** "Sorted strictly descending by [totalAmount]" and "sorted descending by
    [totalAmount]" (ties allowed). *)
Definition strictly_descending (rs : list (RankedCustomer Z)) : Prop :=
  Sorted (λ a b, r_totalAmount a > r_totalAmount b) rs.

Definition descending (rs : list (RankedCustomer Z)) : Prop :=
  StronglySorted (λ a b, r_totalAmount a >= r_totalAmount b) rs.

(** The summed [totalAmount] of customer [cid] over the transactions dated in
    calendar month [m] of year [y]. *)
Definition customerMonthTotal `{DateRuntime} (m y : Z) (cid : string)
    (transactions : list (Transaction Z)) : Z :=
  sum_of t_totalAmount
    (filter (λ t, in_calendar_month m y t ∧ t_customerId t = cid) transactions).

(** "The date of [t] respects every bound that is supplied": not before
    [startDate] when it is given, not after [endDate] when it is given. *)
Definition in_supplied_range `{DateRuntime} {N}
    (startDate endDate : option JsDate) (t : Transaction N) : Prop :=
  match startDate with
  | Some s => date_leb s (Date_parse (t_date t))
  | None => True
  end
  ∧ match endDate with
    | Some e => date_leb (Date_parse (t_date t)) e
    | None => True
    end.

#[export] Instance in_supplied_range_dec `{DateRuntime} {N}
  startDate endDate (t : Transaction N) :
  Decision (in_supplied_range startDate endDate t).
Proof.
  unfold in_supplied_range. destruct startDate, endDate; apply _.
Defined.

(** The summed [totalAmount] of customer [cid] in a list of transactions. *)
Definition totalFor (cid : string) (l : list (Transaction Z)) : Z :=
  sum_of t_totalAmount (filter (λ t, t_customerId t = cid) l).

(** What [customerTotals] holds after its [forEach]: one entry per customer
    id of the list, in the order in which the ids first occur, with the sum
    of that customer's amounts. *)
Record totals_of (l : list (Transaction Z)) (m : list (string * Z)) : Prop := {
  totals_get k :
    JsMap.get k m
    = if decide (k ∈ t_customerId <$> l) then Some (totalFor k l) else None;
  totals_NoDup : NoDup m.*1;
  totals_order ks1 k ks2 :
    m.*1 = ks1 ++ k :: ks2 →
    ∃ l1 t l2, l = l1 ++ t :: l2 ∧ t_customerId t = k
               ∧ ∀ t', t' ∈ l1 → t_customerId t' ∈ ks1
}.

(** ** Sample data *)

Module Sample.

Definition alice : Customer :=
  mkCustomer "c1" "Alice" "Alice Traders" "9000000001" "alice@example.com"
    "1 Main Road" "Retail" None
    "2024-01-05T09:00:00.000Z" "2024-01-05T09:00:00.000Z".

Definition bob : Customer :=
  mkCustomer "c2" "Bob" "Bob Stores" "9000000002" "bob@example.com"
    "2 Main Road" "Wholesale" None
    "2024-01-06T09:00:00.000Z" "2024-01-06T09:00:00.000Z".

(** A transaction with the given id, customer, date, amounts and status. *)
Definition tx {N} (id cid date : string) (total paid_ : N) (st : Status)
  : Transaction N :=
  mkTransaction id cid date [] total paid_ st None date.

(** A cash payment of [amt] against transaction [tid] of customer [cid]. *)
Definition pay {N} (tid cid : string) (amt : N) : Payment N :=
  mkPayment "" tid cid amt "2024-03-20T12:00:00.000Z" cash None.

(** The clock of the examples: 15 March 2024, 10:30 UTC. *)
Definition now : Z := 1710498600000.

(** Two sales to Alice and one to Bob in March 2024, one to Alice in
    February. *)
Definition ledger : list (Transaction Z) :=
  [tx "t1" "c1" "2024-03-01T10:00:00.000Z" 1000 1000 paid;
   tx "t2" "c2" "2024-03-02T10:00:00.000Z" 1200 200 partial;
   tx "t3" "c1" "2024-02-10T10:00:00.000Z" 300 0 pending;
   tx "t4" "c1" "2024-03-05T10:00:00.000Z" 500 0 pending].

(** Alice and Bob each bought for 100 in March 2024. *)
Definition tied : list (Transaction Z) :=
  [tx "t1" "c1" "2024-03-01T10:00:00.000Z" 100 100 paid;
   tx "t2" "c2" "2024-03-02T10:00:00.000Z" 100 0 pending].

(** A single free sample handed to Alice in March 2024: total 0. *)
Definition free_sample : list (Transaction Z) :=
  [tx "t1" "c1" "2024-03-01T10:00:00.000Z" 0 0 paid].

#[local] Set Warnings "-inexact-float".

(** Decimal amounts, as binary64: 19.99 fully paid and 5.49 unpaid. *)
Definition decimals : list (Transaction float) :=
  [tx "t1" "c1" "2024-03-01T10:00:00.000Z" 19.99%float 19.99%float paid;
   tx "t2" "c1" "2024-03-02T10:00:00.000Z" 5.49%float 0%float pending].

#[local] Set Warnings "inexact-float".

End Sample.

(** * Further code *)

(** ** More of the [storage] object *)

(** [Partial<Transaction>]: the fields an update carries. *)
Record TransactionPatch {N : Type} := mkTransactionPatch {
  ut_id : option string;
  ut_customerId : option string;
  ut_date : option string;
  ut_products : option (list (ProductItem N));
  ut_totalAmount : option N;
  ut_amountPaid : option N;
  ut_status : option Status;
  ut_notes : option string;
  ut_createdAt : option string
}.
Arguments TransactionPatch : clear implicits.
Arguments mkTransactionPatch {N}.

(** [{ ...t, ...updates }] *)
Definition spread_transaction {N} (t : Transaction N) (u : TransactionPatch N)
  : Transaction N :=
  mkTransaction
    (default (t_id t) (ut_id u))
    (default (t_customerId t) (ut_customerId u))
    (default (t_date t) (ut_date u))
    (default (t_products t) (ut_products u))
    (default (t_totalAmount t) (ut_totalAmount u))
    (default (t_amountPaid t) (ut_amountPaid u))
    (default (t_status t) (ut_status u))
    (match ut_notes u with Some x => Some x | None => t_notes t end)
    (default (t_createdAt t) (ut_createdAt u)).

Definition updateTransaction {N} (id : string) (updates : TransactionPatch N)
  : IO N (option (Transaction N)) :=
  transactions ← getTransactions;
  match list_find (λ t, t_id t = id) transactions with
  | None => mret None
  | Some (index, t) =>
      let t' := spread_transaction t updates in
      saveTransactions (<[index := t']> transactions);;
      mret (Some t')
  end.

(** ** The forms that call [storage]

    The handlers of the screens, without their display state: what they
    check, what they pass to [storage], and the alert they raise otherwise.
    Three services of the runtime are parameters: [parseFloat] on a text
    field, [String.prototype.trim], and the product of two numbers. *)

(** A string in a condition: true unless empty. *)
Definition truthy (s : string) : bool := bool_decide (s ≠ ""%string).

(** The six text fields of the customer forms ([FormData]). *)
Record FormData := mkFormData {
  f_name : string;
  f_businessName : string;
  f_mobile : string;
  f_email : string;
  f_address : string;
  f_businessType : string
}.

(** The update the customer forms pass to [updateCustomer]: the form fields
    and, from the scanner, the image of the card. *)
Definition formPatch (formData : FormData) (cardImageUri : option string)
  : CustomerPatch :=
  mkPatch None (Some (f_name formData)) (Some (f_businessName formData))
    (Some (f_mobile formData)) (Some (f_email formData))
    (Some (f_address formData)) (Some (f_businessType formData))
    cardImageUri None None.

(** One row of the product list of the transaction form ([ProductForm]). *)
Record ProductForm := mkProductForm {
  pf_name : string;
  pf_quantity : string;
  pf_unitPrice : string
}.

Inductive CustomerFormResult := NameRequired | CustomerSaved.

Inductive TransactionFormResult :=
  ProductRequired | PaidExceedsTotal | TransactionSaved.

Inductive PaymentFormResult :=
  InvalidAmount | ExceedsPending | PaymentAdded.

Section screens.
Context {N : Type} `{JsNumber N}.
Context (num_mul : N → N → N) (parseFloat : string → N)
  (trim : string → string).

(** [EditCustomerScreen.handleSave] *)
Definition EditCustomer_handleSave (customer : Customer)
    (formData : FormData) (nowIso : string) : IO N CustomerFormResult :=
  if negb (truthy (trim (f_name formData))) then mret NameRequired
  else
    updateCustomer nowIso (c_id customer) (formPatch formData None);;
    mret CustomerSaved.

(** [ConfirmDetailsScreen.handleSave] *)
Definition ConfirmDetails_handleSave (formData : FormData)
    (imageUri : string) (existingCustomerId : option string)
    (newId nowIso : string) : IO N CustomerFormResult :=
  if negb (truthy (trim (f_name formData))) then mret NameRequired
  else
    match existingCustomerId with
    | Some id =>
        if truthy id then
          updateCustomer nowIso id (formPatch formData (Some imageUri));;
          mret CustomerSaved
        else
          addCustomer newId nowIso
            (mkCustomer "" (f_name formData) (f_businessName formData)
               (f_mobile formData) (f_email formData) (f_address formData)
               (f_businessType formData) (Some imageUri) "" "");;
          mret CustomerSaved
    | None =>
        addCustomer newId nowIso
          (mkCustomer "" (f_name formData) (f_businessName formData)
             (f_mobile formData) (f_email formData) (f_address formData)
             (f_businessType formData) (Some imageUri) "" "");;
        mret CustomerSaved
    end.

(** [v || 0] on a number. *)
Definition number_or_zero (v : N) : N :=
  if num_falsy v then num_zero else v.

(** [AddTransactionScreen.calculateTotal] *)
Definition calculateTotal (products : list ProductForm) : N :=
  foldl (λ sum p,
           let qty := number_or_zero (parseFloat (pf_quantity p)) in
           let price := number_or_zero (parseFloat (pf_unitPrice p)) in
           num_add sum (num_mul qty price))
        num_zero products.

(** [AddTransactionScreen.handleSave]; [dateIso] is the [date] it stamps,
    [nowIso] the [createdAt] that [addTransaction] stamps. *)
Definition AddTransaction_handleSave (customerId : string)
    (products : list ProductForm) (amountPaid notes : string)
    (newId dateIso nowIso : string) : IO N TransactionFormResult :=
  let validProducts :=
    filter (λ p, truthy (trim (pf_name p)) && truthy (pf_quantity p)
                 && truthy (pf_unitPrice p)) products in
  if bool_decide (length validProducts = 0%nat) then mret ProductRequired
  else
    let totalAmount := calculateTotal products in
    let paid_ := number_or_zero (parseFloat amountPaid) in
    if num_ltb totalAmount paid_ then mret PaidExceedsTotal
    else
      let productItems :=
        (λ p, mkProductItem N (trim (pf_name p)) (parseFloat (pf_quantity p))
                (parseFloat (pf_unitPrice p))
                (num_mul (parseFloat (pf_quantity p))
                   (parseFloat (pf_unitPrice p)))) <$> validProducts in
      addTransaction newId nowIso
        (mkTransaction "" customerId dateIso productItems totalAmount paid_
           (if num_leb totalAmount paid_ then paid
            else if num_ltb num_zero paid_ then partial
            else pending)
           (if truthy (trim notes) then Some (trim notes) else None) "");;
      mret TransactionSaved.

(** [TransactionDetailScreen.handleAddPayment]; [transaction] is the
    transaction the screen shows, [paymentAmount] the text of the amount
    field. *)
Definition handleAddPayment (transaction : Transaction N)
    (paymentAmount : string) (paymentMethod : Method)
    (newId nowIso : string) : IO N PaymentFormResult :=
  let amount := parseFloat paymentAmount in
  let pending_ :=
    num_sub (t_totalAmount transaction) (t_amountPaid transaction) in
  if num_falsy amount || num_leb amount num_zero then mret InvalidAmount
  else if num_ltb pending_ amount then mret ExceedsPending
  else
    addPayment newId
      (mkPayment "" (t_id transaction) (t_customerId transaction) amount
         nowIso paymentMethod None);;
    mret PaymentAdded.

End screens.

(** ** More of the aggregation engine *)

(** [array.slice(0, end)] for an integer [end]: a negative [end] counts from
    the end of the array. *)
Definition Array_slice_to {A : Type} (l : list A) (end_ : Z) : list A :=
  if decide (end_ < 0) then take (Z.to_nat (Z.of_nat (length l) + end_)) l
  else take (Z.to_nat end_) l.

Record ProductQuantity {N : Type} := mkProductQuantity {
  pq_name : string;
  pq_quantity : N
}.
Arguments ProductQuantity : clear implicits.
Arguments mkProductQuantity {N}.

Record CustomerStats {N : Type} := mkCustomerStats {
  cs_totalPurchased : N;
  cs_amountPaid : N;
  cs_amountPending : N;
  cs_transactionCount : nat;
  cs_topProducts : list (ProductQuantity N)
}.
Arguments CustomerStats : clear implicits.
Arguments mkCustomerStats {N}.

Record ProductRevenue {N : Type} := mkProductRevenue {
  pr_name : string;
  pr_quantity : N;
  pr_revenue : N
}.
Arguments ProductRevenue : clear implicits.
Arguments mkProductRevenue {N}.

Section analytics_more.
Context {N : Type} `{JsNumber N} `{DateRuntime}.

(** [productCounts] of [getCustomerStats], after its two nested [forEach]. *)
Definition productCounts (customerTransactions : list (Transaction N))
  : list (string * N) :=
  foldl (λ m t,
           foldl (λ m p,
                    let current := or_zero (JsMap.get (p_name p) m) in
                    JsMap.set (p_name p) (num_add current (p_quantity p)) m)
                 m (t_products t))
        [] customerTransactions.

Definition getCustomerStats (customerId : string)
    (transactions : list (Transaction N)) : CustomerStats N :=
  let customerTransactions :=
    filter (λ t, t_customerId t = customerId) transactions in
  let totalPurchased :=
    foldl (λ sum t, num_add sum (t_totalAmount t)) num_zero
      customerTransactions in
  let amountPaid :=
    foldl (λ sum t, num_add sum (t_amountPaid t)) num_zero
      customerTransactions in
  let amountPending := num_sub totalPurchased amountPaid in
  let topProducts :=
    (λ e, mkProductQuantity e.1 e.2) <$> productCounts customerTransactions in
  let sorted :=
    Array_sort (λ a b, num_sub (pq_quantity b) (pq_quantity a)) topProducts in
  mkCustomerStats totalPurchased amountPaid amountPending
    (length customerTransactions) (Array_slice_to sorted 5).

(** [productStats] of [getTopProducts], after its two nested [forEach]. *)
Definition productStats (filtered : list (Transaction N))
  : list (string * (N * N)) :=
  foldl (λ m t,
           foldl (λ m p,
                    let current :=
                      default (num_zero, num_zero) (JsMap.get (p_name p) m) in
                    JsMap.set (p_name p)
                      (num_add current.1 (p_quantity p),
                       num_add current.2 (p_total p)) m)
                 m (t_products t))
        [] filtered.

Definition getTopProducts (transactions : list (Transaction N)) (limit : Z)
    (startDate endDate : option JsDate) : list (ProductRevenue N) :=
  let filtered := filter (λ t, statusFilter startDate endDate t) transactions in
  let products :=
    (λ e, mkProductRevenue e.1 e.2.1 e.2.2) <$> productStats filtered in
  let sorted :=
    Array_sort (λ a b, num_sub (pr_revenue b) (pr_revenue a)) products in
  Array_slice_to sorted limit.

End analytics_more.

(** ** The customers export ([utils/export.ts])

    The numbers of one row of [exportCustomersToCSV], before they are joined
    into a line of text. *)

Record CustomerRow {N : Type} := mkCustomerRow {
  row_customer : Customer;
  row_totalPurchased : N;
  row_amountPaid : N;
  row_amountPending : N
}.
Arguments CustomerRow : clear implicits.
Arguments mkCustomerRow {N}.

Definition exportCustomersRows {N} `{JsNumber N} (customers : list Customer)
    (transactions : list (Transaction N)) : list (CustomerRow N) :=
  (λ customer,
     let customerTx :=
       filter (λ t, t_customerId t = c_id customer) transactions in
     let totalPurchased :=
       foldl (λ sum t, num_add sum (t_totalAmount t)) num_zero customerTx in
     let amountPaid :=
       foldl (λ sum t, num_add sum (t_amountPaid t)) num_zero customerTx in
     let amountPending := num_sub totalPurchased amountPaid in
     mkCustomerRow customer totalPurchased amountPaid amountPending)
  <$> customers.

(** The fields of one row of [exportTransactionsToCSV] (the date column,
    rendered by [toLocaleDateString], is left out). *)
Record TransactionRow {N : Type} := mkTransactionRow {
  trow_customerName : string;
  trow_productNames : string;
  trow_totalQty : N;
  trow_totalAmount : N;
  trow_amountPaid : N;
  trow_pending : N;
  trow_status : Status
}.
Arguments TransactionRow : clear implicits.
Arguments mkTransactionRow {N}.

Definition exportTransactionsRows {N} `{JsNumber N}
    (transactions : list (Transaction N)) (customers : list Customer)
  : list (TransactionRow N) :=
  (λ tx,
     let customer_ :=
       snd <$> list_find (λ c, c_id c = t_customerId tx) customers in
     let productNames := String.concat "; " (p_name <$> t_products tx) in
     let totalQty :=
       foldl (λ sum p, num_add sum (p_quantity p)) num_zero (t_products tx) in
     let pending_ := num_sub (t_totalAmount tx) (t_amountPaid tx) in
     mkTransactionRow
       (match customer_ with
        | Some c => if truthy (c_name c) then c_name c else "Unknown"
        | None => "Unknown"
        end)
       productNames totalQty (t_totalAmount tx) (t_amountPaid tx) pending_
       (t_status tx))
  <$> transactions.

(** ** Payment reminders ([utils/notifications.ts])

    A scheduled notification is described by what its text interpolates: the
    customer's name, the amount, and the number of days passed to
    [schedulePendingPaymentNotification], which words the text as overdue
    when that number is positive. The number is computed from the parsed
    date, so it is [None] (NaN) for a date that does not parse. *)

Record Reminder {N : Type} := mkReminder {
  rem_customerName : string;
  rem_amount : N;
  rem_daysOverdue : option Z
}.
Arguments Reminder : clear implicits.
Arguments mkReminder {N}.

Definition rem_overdue {N} (r : Reminder N) : bool :=
  match rem_daysOverdue r with
  | Some d => bool_decide (0 < d)
  | None => false
  end.

(** [checkAndNotifyPendingPayments]: the notifications it schedules, in
    order; [enabled] is the stored preference and [today] the clock. *)
Definition checkAndNotifyPendingPayments {N} `{JsNumber N} `{DateRuntime}
    (enabled : bool) (today : Z) (transactions : list (Transaction N))
    (customers : list Customer) : list (Reminder N) :=
  if negb enabled then []
  else
    let pendingTransactions :=
      filter (λ t, num_ltb (t_amountPaid t) (t_totalAmount t)
                   && date_ltb (Date_parse (t_date t)) (Some today))
        transactions in
    foldl (λ scheduled tx,
             match snd <$> list_find (λ c, c_id c = t_customerId tx)
                             customers with
             | Some customer_ =>
                 let daysOverdue :=
                   (λ txTime, (today - txTime) / (1000 * 60 * 60 * 24))
                   <$> Date_parse (t_date tx) in
                 let pendingAmount :=
                   num_sub (t_totalAmount tx) (t_amountPaid tx) in
                 scheduled
                 ++ [mkReminder (c_name customer_) pendingAmount
                       ((λ d, d - 30) <$> daysOverdue)]
             | None => scheduled
             end)
          [] (Array_slice_to pendingTransactions 3).

(** ** Further specification-side notions *)

(** The payment [addPayment] records for a call: the argument with the fresh
    id. *)
Definition recorded {N} (call : string * Payment N) : Payment N :=
  mkPayment call.1 (pay_transactionId call.2) (pay_customerId call.2)
    (pay_amount call.2) (pay_date call.2) (pay_method call.2)
    (pay_notes call.2).

(** The transactions collection after [addPayment] has run with [payment]. *)
Definition transactionsAfter {N} `{JsNumber N} (payment : Payment N)
    (transactions : list (Transaction N)) : list (Transaction N) :=
  match list_find (λ t, t_id t = pay_transactionId payment) transactions with
  | Some (i, tx) => <[i := withPayment tx payment]> transactions
  | None => transactions
  end.

(** The accumulation every [forEach] over a [Map] performs in the engine:
    each item updates the entry of its key from the entry's previous value
    ([None] when the key is new). *)
Definition accumulate {X V : Type} (key : X → string)
    (step : option V → X → V) (items : list X) : list (string * V) :=
  foldl (λ m x, JsMap.set (key x) (step (JsMap.get (key x) m) x) m) [] items.

(** The value the items of key [k] fold to, in their order. *)
Definition folded {X V : Type} (key : X → string)
    (step : option V → X → V) (k : string) (items : list X) : option V :=
  foldl (λ o x, Some (step o x)) None (filter (λ x, key x = k) items).

(** What an accumulated map holds: for each key the folded value, one entry
    per key, the keys in the order in which they first occur. *)
Record accumulated {X V : Type} (key : X → string)
    (step : option V → X → V) (items : list X) (m : list (string * V))
  : Prop := {
  acc_get k : JsMap.get k m = folded key step k items;
  acc_NoDup : NoDup m.*1;
  acc_order ks1 k ks2 :
    m.*1 = ks1 ++ k :: ks2 →
    ∃ l1 x l2, items = l1 ++ x :: l2 ∧ key x = k
               ∧ ∀ x', x' ∈ l1 → key x' ∈ ks1
}.


(** "The date of [t] is not outside the supplied bounds": a date that does
    not parse is before or after nothing, and neither is anything before or
    after a bound that is itself an invalid date. *)
Definition not_outside `{DateRuntime} {N} (startDate endDate : option JsDate)
    (t : Transaction N) : Prop :=
  match Date_parse (t_date t) with
  | Some tv =>
      match startDate with Some (Some s) => s ≤ tv | _ => True end
      ∧ match endDate with Some (Some e) => tv ≤ e | _ => True end
  | None => True
  end.

#[export] Instance not_outside_dec `{DateRuntime} {N}
  startDate endDate (t : Transaction N) :
  Decision (not_outside startDate endDate t).
Proof.
  unfold not_outside.
  destruct (Date_parse _), startDate as [[?|]|], endDate as [[?|]|]; apply _.
Defined.

(** "[top] holds the (at most) [n] items of [all] with the largest [key]":
    it is drawn from [all], sorted by descending key, and an item left out
    has a key no larger than that of any item listed, which happens only
    when [top] is full. *)
Record top_by {A : Type} (key : A → Z) (n : nat) (all top : list A)
  : Prop := {
  top_length : (length top ≤ n)%nat;
  top_sorted : StronglySorted (λ a b, key a >= key b) top;
  top_drawn : top ⊆+ all;
  top_largest x :
    x ∈ all → x ∈ top ∨ (length top = n ∧ ∀ y, y ∈ top → key y >= key x)
}.

(** ** Sample forms and sales *)

Module Forms.

(** [String.prototype.trim], for the space character. *)
Fixpoint trimStart (s : string) : string :=
  match s with
  | String " "%char s' => trimStart s'
  | _ => s
  end.

Definition trim (s : string) : string :=
  String.rev (trimStart (String.rev (trimStart s))).

(** [parseFloat] on a string of decimal digits; the examples type nothing
    else, and any other string reads as 0 here. *)
Definition parseFloat (s : string) : Z := default 0 (UTC.parse_digits s 0).

(** The customer form with Alice's card retyped. *)
Definition typed : FormData :=
  mkFormData " Alice A. " "Alice Trading Co" "9000000009" "a@example.com"
    "9 Main Road" "Retail".

(** A form whose name field holds spaces only. *)
Definition blank : FormData :=
  mkFormData "   " "Alice Trading Co" "9000000009" "a@example.com"
    "9 Main Road" "Retail".

(** Three rows of the product list: the middle one has no name. *)
Definition rows : list ProductForm :=
  [mkProductForm " Tea " "3" "40";
   mkProductForm "  " "1" "5";
   mkProductForm "Sugar" "2" "50"].

End Forms.

Module Catalogue.

Definition item (name : string) (quantity unitPrice : Z) : ProductItem Z :=
  mkProductItem Z name quantity unitPrice (quantity * unitPrice).

Definition sale (id cid date : string) (products : list (ProductItem Z))
    (paid_ : Z) (st : Status) : Transaction Z :=
  mkTransaction id cid date products
    (foldr (λ p s, p_total p + s) 0 products) paid_ st None date.

(** Sales of March 2024 to Alice and Bob, and one of January to Alice. *)
Definition sales : list (Transaction Z) :=
  [sale "t1" "c1" "2024-03-01T10:00:00.000Z"
     [item "Tea" 3 40; item "Sugar" 2 50] 220 paid;
   sale "t2" "c2" "2024-03-02T10:00:00.000Z"
     [item "Tea" 10 40; item "Rice" 1 90] 100 partial;
   sale "t3" "c1" "2024-01-10T10:00:00.000Z"
     [item "Sugar" 4 50; item "Tea" 1 40] 0 pending].

End Catalogue.
(** * Properties *)

(** ** Lists *)

Section list_facts.
Context {A : Type} (P : A → Prop) `{!∀ x, Decision (P x)}.

Lemma list_find_insert_same (l : list A) (i : nat) (x y : A) :
  list_find P l = Some (i, x) → P y →
  list_find P (<[i := y]> l) = Some (i, y).
Proof.
  intros Hfind Hy. apply list_find_Some in Hfind as (Hi & Hx & Hbefore).
  apply list_find_Some. split_and!; [|done|].
  - apply list_lookup_insert_eq. by eapply lookup_lt_Some.
  - intros j z Hj Hlt. rewrite list_lookup_insert_ne in Hj by lia. eauto.
Qed.

Lemma list_find_lookup (l : list A) (i : nat) (x : A) :
  list_find P l = Some (i, x) → l !! i = Some x.
Proof. intros Hfind. by apply list_find_Some in Hfind as (? & _). Qed.

Lemma filter_all (l : list A) : Forall P l → filter P l = l.
Proof.
  induction 1 as [|x l Hx _ IH]; [done|].
  by rewrite filter_cons_True, IH.
Qed.

Lemma filter_none (l : list A) : Forall (λ x, ¬ P x) l → filter P l = [].
Proof.
  induction 1 as [|x l Hx _ IH]; [done|].
  by rewrite filter_cons_False.
Qed.

End list_facts.

(** ** The insertion-ordered map *)

Section jsmap_facts.
Context {V : Type}.
Implicit Types (m : list (string * V)) (k : string) (v : V).

Lemma JsMap_get_None m k : JsMap.get k m = None ↔ k ∉ m.*1.
Proof.
  induction m as [|[k' v'] m IH]; cbn.
  - split; [intros _; apply not_elem_of_nil|done].
  - rewrite not_elem_of_cons. destruct (decide (k' = k)) as [->|Hne].
    + split; [done|]. intros [? _]. done.
    + rewrite IH. split; [intros ?; split; [done|done]|intros [_ ?]; done].
Qed.

Lemma JsMap_get_elem_of m k v :
  NoDup m.*1 → (k, v) ∈ m → JsMap.get k m = Some v.
Proof.
  induction m as [|[k' v'] m IH]; cbn; intros Hnd Hin.
  - by apply elem_of_nil in Hin.
  - apply NoDup_cons in Hnd as [Hk' Hnd].
    apply elem_of_cons in Hin as [[= -> ->]|Hin].
    + by rewrite decide_True.
    + rewrite decide_False; [by apply IH|].
      intros ->. apply Hk'. apply list_elem_of_fmap. by exists (k, v).
Qed.

Lemma JsMap_get_Some_elem_of m k v : JsMap.get k m = Some v → (k, v) ∈ m.
Proof.
  induction m as [|[k' v'] m IH]; cbn; [done|].
  destruct (decide (k' = k)) as [->|Hne].
  - intros [= ->]. apply elem_of_cons. by left.
  - intros Hget. apply elem_of_cons. right. by apply IH.
Qed.

Lemma JsMap_get_set m k k' v :
  JsMap.get k' (JsMap.set k v m)
  = if decide (k = k') then Some v else JsMap.get k' m.
Proof.
  induction m as [|[k0 v0] m IH]; cbn.
  - destruct (decide (k = k')); done.
  - destruct (decide (k0 = k)) as [->|Hne]; cbn.
    + destruct (decide (k = k')); done.
    + rewrite IH. destruct (decide (k0 = k')) as [->|]; [|done].
      by rewrite decide_False.
Qed.

Lemma JsMap_set_keys m k v :
  (JsMap.set k v m).*1 = if decide (k ∈ m.*1) then m.*1 else m.*1 ++ [k].
Proof.
  induction m as [|[k0 v0] m IH]; cbn.
  - rewrite decide_False; [done|apply not_elem_of_nil].
  - destruct (decide (k0 = k)) as [->|Hne]; cbn.
    + rewrite decide_True; [done|]. apply elem_of_cons. by left.
    + rewrite IH. destruct (decide (k ∈ m.*1)) as [Hin|Hnin].
      * rewrite decide_True; [done|]. apply elem_of_cons. by right.
      * rewrite decide_False; [done|]. rewrite not_elem_of_cons. done.
Qed.

End jsmap_facts.

(** ** Running the [storage] methods *)

Ltac znum :=
  cbv [num_zero num_add num_sub num_ltb num_leb num_falsy Z_number] in *.

Ltac io_run :=
  cbv [exec eval addPayment updateCustomer deleteCustomer addCustomer
       addTransaction getCustomerTransactions getCustomerPayments
       getCustomers saveCustomers getTransactions saveTransactions
       getPayments savePayments mbind mret IO_bind IO_ret];
  cbn [fst snd s_customers s_transactions s_payments].

(** What one [addPayment] does to the store. *)
Lemma addPayment_run {N} `{JsNumber N} (st : Store N) (newId : string)
    (p : Payment N) :
  addPayment newId p st =
    (let newPayment :=
       mkPayment newId (pay_transactionId p) (pay_customerId p) (pay_amount p)
         (pay_date p) (pay_method p) (pay_notes p) in
     (newPayment,
      mkStore (s_customers st)
        match list_find (λ t, t_id t = pay_transactionId p)
                (s_transactions st) with
        | Some (i, tx) => <[i := withPayment tx p]> (s_transactions st)
        | None => s_transactions st
        end
        (newPayment :: s_payments st))).
Proof.
  io_run. destruct (list_find _ _) as [[i tx]|]; reflexivity.
Qed.

(** ** The store, for any representation of amounts *)

Section store.
Context {N : Type} `{JsNumber N}.
Implicit Types (st : Store N) (tx : Transaction N) (p : Payment N).

Lemma updateCustomer_run st nowIso id updates :
  updateCustomer nowIso id updates st =
    match list_find (λ c, c_id c = id) (s_customers st) with
    | None => (None, st)
    | Some (index, c) =>
        let c' := with_updatedAt (spread_customer c updates) nowIso in
        (Some c',
         mkStore (<[index := c']> (s_customers st)) (s_transactions st)
           (s_payments st))
    end.
Proof.
  io_run. destruct (list_find _ _) as [[index c]|]; reflexivity.
Qed.

(** C8 (amended).  For an existing customer [updateCustomer] returns the
    updated record and stores it in the place of the old one, with
    [updatedAt] set to the current time; its id is the id the update carries
    and, when the update carries none (or the same one), the id is unchanged.
    Nothing else in the store changes.  For an id that matches no customer it
    returns null and leaves the store as it was. *)
Theorem updateCustomer_effect st nowIso id updates :
  (∀ i c,
     list_find (λ c, c_id c = id) (s_customers st) = Some (i, c) →
     ∃ c',
       eval (updateCustomer nowIso id updates) st = Some c'
       ∧ s_customers (exec (updateCustomer nowIso id updates) st)
         = <[i := c']> (s_customers st)
       ∧ s_customers (exec (updateCustomer nowIso id updates) st) !! i
         = Some c'
       ∧ s_transactions (exec (updateCustomer nowIso id updates) st)
         = s_transactions st
       ∧ s_payments (exec (updateCustomer nowIso id updates) st)
         = s_payments st
       ∧ c_updatedAt c' = nowIso
       ∧ c_id c' = default id (u_id updates)
       ∧ (u_id updates = None ∨ u_id updates = Some id → c_id c' = id))
  ∧ (list_find (λ c, c_id c = id) (s_customers st) = None →
     eval (updateCustomer nowIso id updates) st = None
     ∧ exec (updateCustomer nowIso id updates) st = st).
Proof.
  unfold exec, eval. rewrite updateCustomer_run. split.
  - intros i c Hfind. rewrite Hfind. cbn.
    pose proof Hfind as (Hi & Hid & _)%list_find_Some.
    eexists. split_and!; try reflexivity.
    + apply list_lookup_insert_eq. by eapply lookup_lt_Some.
    + cbn. by rewrite Hid.
    + cbn. rewrite Hid. by intros [-> | ->].
  - by intros ->.
Qed.

Lemma deleteCustomer_run st id :
  deleteCustomer id st =
    (tt, mkStore (filter (λ c, c_id c ≠ id) (s_customers st))
           (filter (λ t, t_customerId t ≠ id) (s_transactions st))
           (filter (λ p, pay_customerId p ≠ id) (s_payments st))).
Proof. reflexivity. Qed.

(** C6 (amended).  [deleteCustomer] keeps, in their order, exactly the
    customers whose id differs, the transactions whose [customerId] differs
    and the payments whose [customerId] differs; afterwards
    [getCustomerTransactions] and [getCustomerPayments] for that id return
    empty sequences.  When the id matches no customer the customers
    collection is unchanged, and when moreover no transaction and no payment
    carries it as [customerId] the whole store is unchanged. *)
Theorem deleteCustomer_effect st id :
  let st' := exec (deleteCustomer id) st in
  s_customers st' = filter (λ c, c_id c ≠ id) (s_customers st)
  ∧ s_transactions st' = filter (λ t, t_customerId t ≠ id) (s_transactions st)
  ∧ s_payments st' = filter (λ p, pay_customerId p ≠ id) (s_payments st)
  ∧ Forall (λ c, c_id c ≠ id) (s_customers st')
  ∧ Forall (λ t, t_customerId t ≠ id) (s_transactions st')
  ∧ Forall (λ p, pay_customerId p ≠ id) (s_payments st')
  ∧ eval (getCustomerTransactions id) st' = []
  ∧ eval (getCustomerPayments id) st' = []
  ∧ (Forall (λ c, c_id c ≠ id) (s_customers st) →
     s_customers st' = s_customers st
     ∧ (Forall (λ t, t_customerId t ≠ id) (s_transactions st) →
        Forall (λ p, pay_customerId p ≠ id) (s_payments st) →
        st' = st)).
Proof.
  intros st'. subst st'. unfold exec. rewrite deleteCustomer_run.
  cbn [snd s_customers s_transactions s_payments].
  assert (∀ {A} (P : A → Prop) `{!∀ x, Decision (P x)} (l : list A),
            Forall P (filter P l)) as Hfilter.
  { intros A P ? l. apply Forall_forall. intros x Hx.
    by apply list_elem_of_filter in Hx as [? _]. }
  split_and!;
    [reflexivity | reflexivity | reflexivity
    | apply Hfilter | apply Hfilter | apply Hfilter | | | ].
  - io_run. apply filter_none. eapply Forall_impl; [apply Hfilter|].
    intros t Ht. cbn in Ht. done.
  - io_run. apply filter_none. eapply Forall_impl; [apply Hfilter|].
    intros t Ht. cbn in Ht. done.
  - intros Hc. split; [by apply filter_all|].
    intros Ht Hp. destruct st as [cs ts ps]. cbn in *.
    by rewrite !filter_all.
Qed.

(** C7.  [addPayment] always puts the new payment (the argument with the
    fresh id) into the payments collection, at its head, and returns it.
    When no transaction has the payment's [transactionId] the transactions
    collection is unchanged; when one has, only that transaction changes,
    and its [amountPaid] becomes the prior [amountPaid] plus the payment's
    [amount], whatever [totalAmount] is. *)
Theorem addPayment_effect st newId p :
  let newPayment :=
    mkPayment newId (pay_transactionId p) (pay_customerId p) (pay_amount p)
      (pay_date p) (pay_method p) (pay_notes p) in
  let st' := exec (addPayment newId p) st in
  eval (addPayment newId p) st = newPayment
  ∧ s_payments st' = newPayment :: s_payments st
  ∧ s_customers st' = s_customers st
  ∧ (list_find (λ t, t_id t = pay_transactionId p) (s_transactions st) = None →
     s_transactions st' = s_transactions st)
  ∧ (∀ i tx,
       list_find (λ t, t_id t = pay_transactionId p) (s_transactions st)
         = Some (i, tx) →
       ∃ tx',
         s_transactions st' = <[i := tx']> (s_transactions st)
         ∧ s_transactions st' !! i = Some tx'
         ∧ t_id tx' = t_id tx
         ∧ t_totalAmount tx' = t_totalAmount tx
         ∧ t_amountPaid tx'
           = num_add (t_amountPaid tx) (pay_amount p)).
Proof.
  intros newPayment st'. subst st'. unfold exec, eval.
  rewrite addPayment_run. cbn [fst snd s_payments s_customers s_transactions].
  split_and!; try done.
  - by intros ->.
  - intros i tx Hfind. rewrite Hfind. exists (withPayment tx p).
    split_and!; try done.
    apply list_lookup_insert_eq. eapply lookup_lt_Some.
    by eapply list_find_lookup.
Qed.

End store.

(** ** The store, with amounts in exact arithmetic *)

Section ledger.
Implicit Types (st : Store Z) (tx : Transaction Z) (p : Payment Z).

Lemma withPayment_id tx p : t_id (withPayment tx p) = t_id tx.
Proof. reflexivity. Qed.

Lemma withPayment_totalAmount tx p :
  t_totalAmount (withPayment tx p) = t_totalAmount tx.
Proof. reflexivity. Qed.

Lemma withPayment_amountPaid tx p :
  t_amountPaid (withPayment tx p) = t_amountPaid tx + pay_amount p.
Proof. reflexivity. Qed.

(** The status written by [addPayment] obeys the rule of the code. *)
Lemma withPayment_status_rule tx p : status_rule (withPayment tx p).
Proof.
  unfold status_rule, withPayment. cbn [t_status t_amountPaid t_totalAmount].
  znum.
  destruct (Z.leb_spec (t_totalAmount tx) (t_amountPaid tx + pay_amount p));
    [|destruct (Z.ltb_spec 0 (t_amountPaid tx + pay_amount p))];
    split_and!; split; intros; try discriminate; try lia; done.
Qed.

(** One [addPayment] on an existing transaction: it stays the first one with
    its id, at the same index, updated by [withPayment]. *)
Lemma addPayment_found st newId p i tx :
  list_find (λ t, t_id t = pay_transactionId p) (s_transactions st)
    = Some (i, tx) →
  list_find (λ t, t_id t = pay_transactionId p)
    (s_transactions (exec (addPayment newId p) st))
    = Some (i, withPayment tx p).
Proof.
  intros Hfind. unfold exec. rewrite addPayment_run. cbn. rewrite Hfind.
  apply (list_find_insert_same _ _ _ tx); [done|].
  rewrite withPayment_id. by apply list_find_Some in Hfind as (_ & ? & _).
Qed.

Lemma addPayments_found st tid calls i tx :
  Forall (λ c, pay_transactionId c.2 = tid) calls →
  list_find (λ t, t_id t = tid) (s_transactions st) = Some (i, tx) →
  list_find (λ t, t_id t = tid)
    (s_transactions (exec (addPayments calls) st))
    = Some (i, foldl withPayment tx (snd <$> calls)).
Proof.
  intros Hall. revert st tx.
  induction Hall as [|[newId p] calls Hp _ IH]; intros st tx Hfind; [done|].
  simpl in Hp. subst tid. cbn [addPayments fmap list_fmap foldl snd].
  specialize (IH (exec (addPayment newId p) st) (withPayment tx p)
                (addPayment_found _ _ _ _ _ Hfind)).
  rewrite <- IH. unfold exec at 1 3. cbv [mbind IO_bind].
  by destruct (addPayment newId p st).
Qed.

Lemma foldl_withPayment_totalAmount tx ps :
  t_totalAmount (foldl withPayment tx ps) = t_totalAmount tx.
Proof.
  revert tx. induction ps as [|p ps IH]; intros tx; [done|].
  cbn [foldl]. by rewrite IH.
Qed.

Lemma foldl_withPayment_amountPaid tx ps :
  t_amountPaid (foldl withPayment tx ps)
  = t_amountPaid tx + sum_of pay_amount ps.
Proof.
  revert tx. induction ps as [|p ps IH]; intros tx; cbn [foldl sum_of foldr].
  - lia.
  - rewrite IH, withPayment_amountPaid. fold (sum_of pay_amount ps). lia.
Qed.

Lemma foldl_withPayment_status_rule tx ps :
  ps ≠ [] → status_rule (foldl withPayment tx ps).
Proof.
  destruct ps as [|p ps _] using rev_ind; [done|]. intros _.
  rewrite foldl_app. apply withPayment_status_rule.
Qed.

Lemma status_rule_positive_total tx :
  0 < t_totalAmount tx → status_rule tx → status_rule_as_stated tx.
Proof.
  unfold status_rule, status_rule_as_stated.
  intros Hpos (Hpaid & Hpending & Hpartial). split_and!; [done| |].
  - rewrite Hpending. lia.
  - rewrite Hpartial. lia.
Qed.

(** C1 (amended).  After any non-empty sequence of [addPayment] calls that
    reference an existing transaction, that transaction keeps its place and
    its [totalAmount], its [amountPaid] is the prior one plus the amounts
    paid, and its status is: paid iff [amountPaid >= totalAmount]; pending
    iff [amountPaid <= 0] and [amountPaid < totalAmount]; partial iff
    [0 < amountPaid < totalAmount].  When [totalAmount > 0] this is the
    three-way rule exactly as the data model words it. *)
Theorem addPayments_status_rule st tid calls i tx :
  calls ≠ [] →
  Forall (λ c, pay_transactionId c.2 = tid) calls →
  list_find (λ t, t_id t = tid) (s_transactions st) = Some (i, tx) →
  ∃ tx',
    list_find (λ t, t_id t = tid)
      (s_transactions (exec (addPayments calls) st)) = Some (i, tx')
    ∧ t_totalAmount tx' = t_totalAmount tx
    ∧ t_amountPaid tx'
      = t_amountPaid tx + sum_of pay_amount (snd <$> calls)
    ∧ status_rule tx'
    ∧ (0 < t_totalAmount tx → status_rule_as_stated tx').
Proof.
  intros Hne Hall Hfind. exists (foldl withPayment tx (snd <$> calls)).
  assert (snd <$> calls ≠ []) as Hne' by (by destruct calls).
  split_and!.
  - by apply addPayments_found.
  - apply foldl_withPayment_totalAmount.
  - apply foldl_withPayment_amountPaid.
  - by apply foldl_withPayment_status_rule.
  - intros Hpos. apply status_rule_positive_total.
    + by rewrite foldl_withPayment_totalAmount.
    + by apply foldl_withPayment_status_rule.
Qed.

(** C10.  A payment with [amount > 0] on an existing transaction whose prior
    [amountPaid] is [>= 0] leaves a strictly positive [amountPaid], and the
    resulting status is never pending. *)
Theorem addPayment_never_pending st newId p i tx :
  list_find (λ t, t_id t = pay_transactionId p) (s_transactions st)
    = Some (i, tx) →
  0 < pay_amount p →
  0 ≤ t_amountPaid tx →
  ∃ tx',
    list_find (λ t, t_id t = pay_transactionId p)
      (s_transactions (exec (addPayment newId p) st)) = Some (i, tx')
    ∧ 0 < t_amountPaid tx'
    ∧ t_status tx' ≠ pending.
Proof.
  intros Hfind Hamount Hprior. exists (withPayment tx p).
  split; [by apply addPayment_found|].
  pose proof (withPayment_status_rule tx p) as (_ & Hpending & _).
  rewrite withPayment_amountPaid in *. split; [lia|].
  intros Hst. apply Hpending in Hst. lia.
Qed.

End ledger.

(** ** The store on concrete data *)

(** On the data of the specification's example: T2 (total 500, 200 paid)
    receives 100 and then 200, and ends paid with 500. *)
Lemma addPayments_status_rule_witness :
  ∃ tx',
    list_find (λ t, t_id t = "t2")
      (s_transactions
         (exec (addPayments [("p1", Sample.pay "t2" "c1" 100);
                             ("p2", Sample.pay "t2" "c1" 200)])
            (mkStore [Sample.alice]
               [Sample.tx "t1" "c1" "2024-03-01T10:00:00.000Z" 1000 1000 paid;
                Sample.tx "t2" "c1" "2024-03-02T10:00:00.000Z" 500 200 partial]
               []))) = Some (1%nat, tx')
    ∧ t_totalAmount tx' = 500
    ∧ t_amountPaid tx' = 200 + (100 + (200 + 0))
    ∧ status_rule tx'
    ∧ (0 < 500 → status_rule_as_stated tx').
Proof.
  apply (addPayments_status_rule
           (mkStore [Sample.alice]
              [Sample.tx "t1" "c1" "2024-03-01T10:00:00.000Z" 1000 1000 paid;
               Sample.tx "t2" "c1" "2024-03-02T10:00:00.000Z" 500 200 partial]
              [])
           "t2"
           [("p1", Sample.pay "t2" "c1" 100); ("p2", Sample.pay "t2" "c1" 200)]
           1%nat
           (Sample.tx "t2" "c1" "2024-03-02T10:00:00.000Z" 500 200 partial)).
  - discriminate.
  - repeat constructor.
  - vm_compute. reflexivity.
Defined.

(** C1, as stated, fails: a transaction whose [totalAmount] is 0 (a product
    with unit price 0) that receives a payment of 0 ends with
    [amountPaid = 0 <= 0], yet its status is paid and not pending. *)
Lemma addPayments_status_rule_as_stated_counterexample :
  ∃ tx',
    list_find (λ t, t_id t = "t0")
      (s_transactions
         (exec (addPayments [("p1", Sample.pay "t0" "c1" 0)])
            (mkStore [Sample.alice]
               [Sample.tx "t0" "c1" "2024-03-01T10:00:00.000Z" 0 0 paid] [])))
    = Some (0%nat, tx')
    ∧ t_amountPaid tx' ≤ 0
    ∧ t_status tx' = paid
    ∧ ¬ status_rule_as_stated tx'.
Proof.
  eexists. split; [vm_compute; reflexivity|].
  split_and!; [done|done|].
  intros (_ & Hpending & _). cbn in Hpending.
  assert (paid = pending) as Heq by (apply Hpending; done). discriminate.
Qed.

Lemma addPayment_never_pending_witness :
  ∃ tx',
    list_find (λ t, t_id t = "t3")
      (s_transactions
         (exec (addPayment "p1" (Sample.pay "t3" "c1" 50))
            (mkStore [Sample.alice]
               [Sample.tx "t3" "c1" "2024-03-03T10:00:00.000Z" 400 0 pending]
               []))) = Some (0%nat, tx')
    ∧ 0 < t_amountPaid tx'
    ∧ t_status tx' ≠ pending.
Proof.
  apply (addPayment_never_pending
           (mkStore [Sample.alice]
              [Sample.tx "t3" "c1" "2024-03-03T10:00:00.000Z" 400 0 pending]
              [])
           "p1" (Sample.pay "t3" "c1" 50) 0%nat
           (Sample.tx "t3" "c1" "2024-03-03T10:00:00.000Z" 400 0 pending)).
  - vm_compute. reflexivity.
  - reflexivity.
  - discriminate.
Defined.

(** Both cases on data: a payment for an unknown transaction is recorded and
    nothing else moves; a payment of 700 on a transaction of 500 with 200
    paid brings [amountPaid] to 900. *)
Lemma addPayment_effect_witness :
  let st :=
    mkStore [Sample.alice]
      [Sample.tx "t2" "c1" "2024-03-02T10:00:00.000Z" 500 200 partial] [] in
  (s_payments (exec (addPayment "p1" (Sample.pay "zz" "c1" 10)) st)
     = [mkPayment "p1" "zz" "c1" 10 "2024-03-20T12:00:00.000Z" cash None]
   ∧ s_transactions (exec (addPayment "p1" (Sample.pay "zz" "c1" 10)) st)
     = s_transactions st)
  ∧ ∃ tx',
      s_transactions (exec (addPayment "p2" (Sample.pay "t2" "c1" 700)) st)
        !! 0%nat = Some tx'
      ∧ t_amountPaid tx' = 200 + 700.
Proof.
  intros st. split.
  - destruct (addPayment_effect st "p1" (Sample.pay "zz" "c1" 10))
      as (_ & Hpay & _ & Hnone & _).
    split; [exact Hpay|]. apply Hnone. vm_compute. reflexivity.
  - destruct (addPayment_effect st "p2" (Sample.pay "t2" "c1" 700))
      as (_ & _ & _ & _ & Hsome).
    destruct (Hsome 0%nat
                (Sample.tx "t2" "c1" "2024-03-02T10:00:00.000Z" 500 200 partial))
      as (tx' & _ & Hlook & _ & _ & Hpaid); [vm_compute; reflexivity|].
    exists tx'. split; [exact Hlook | exact Hpaid].
Defined.

Lemma updateCustomer_effect_witness :
  let st := mkStore [Sample.bob; Sample.alice] [] [] : Store Z in
  let updates :=
    mkPatch None (Some "Alice B") None (Some "9111111111") None None None None
      None (Some "1999-01-01T00:00:00.000Z") in
  (∃ c',
     eval (updateCustomer "2024-03-15T10:30:00.000Z" "c1" updates) st
       = Some c'
     ∧ c_updatedAt c' = "2024-03-15T10:30:00.000Z"
     ∧ c_id c' = "c1")
  ∧ exec (updateCustomer "2024-03-15T10:30:00.000Z" "c7" updates) st = st.
Proof.
  intros st updates. split.
  - destruct (updateCustomer_effect st "2024-03-15T10:30:00.000Z" "c1" updates)
      as [Hsome _].
    destruct (Hsome 1%nat Sample.alice) as (c' & Hret & _ & _ & _ & _ & Hat & _ & Hid);
      [vm_compute; reflexivity|].
    exists c'. split_and!; [exact Hret | exact Hat | apply Hid; by left].
  - destruct (updateCustomer_effect st "2024-03-15T10:30:00.000Z" "c7" updates)
      as [_ Hnone].
    apply Hnone. vm_compute. reflexivity.
Defined.

(** C8, as stated, fails: the update may itself carry an [id], and the merge
    then overwrites the id of the stored customer. *)
Lemma updateCustomer_id_counterexample :
  let st := mkStore [Sample.alice] [] [] : Store Z in
  let updates := mkPatch (Some "c9") None None None None None None None None None in
  c_id <$> eval (updateCustomer "2024-03-15T10:30:00.000Z" "c1" updates) st
    = Some "c9"
  ∧ c_id <$> s_customers
               (exec (updateCustomer "2024-03-15T10:30:00.000Z" "c1" updates) st)
    = ["c9"].
Proof. vm_compute. split; reflexivity. Qed.

Lemma deleteCustomer_effect_witness :
  let st :=
    mkStore [Sample.alice]
      [Sample.tx "t1" "c1" "2024-03-01T10:00:00.000Z" 1000 1000 paid]
      [Sample.pay "t1" "c1" 1000] : Store Z in
  exec (deleteCustomer "c2") st = st.
Proof.
  intros st.
  destruct (deleteCustomer_effect st "c2") as (_ & _ & _ & _ & _ & _ & _ & _ & Hnoop).
  apply Hnoop; repeat constructor; discriminate.
Defined.

(** C6, as stated, fails: [addTransaction] accepts a [customerId] that no
    customer has; deleting that id, which matches no customer, then removes
    the transaction. *)
Lemma deleteCustomer_noop_counterexample :
  let st :=
    exec (addTransaction "t9" "2024-03-15T10:30:00.000Z"
            (Sample.tx "" "ghost" "2024-03-15T10:30:00.000Z" 100 0 pending))
      (mkStore [Sample.alice] [] []) : Store Z in
  list_find (λ c, c_id c = "ghost") (s_customers st) = None
  ∧ length (s_transactions st) = 1%nat
  ∧ s_transactions (exec (deleteCustomer "ghost") st) = []
  ∧ exec (deleteCustomer "ghost") st ≠ st.
Proof.
  intros st. split_and!; try (vm_compute; reflexivity).
  intros Heq. apply (f_equal (λ s, length (s_transactions s))) in Heq.
  vm_compute in Heq. discriminate.
Qed.


(** ** The aggregation engine, with amounts in exact arithmetic *)

Section sums.
Context {A : Type}.

Lemma sum_of_cons (f : A → Z) (x : A) (l : list A) :
  sum_of f (x :: l) = f x + sum_of f l.
Proof. reflexivity. Qed.

Lemma foldl_add_sum_of (f : A → Z) (l : list A) (a : Z) :
  foldl (λ sum t, num_add sum (f t)) a l = a + sum_of f l.
Proof.
  revert a. induction l as [|x l IH]; intros a.
  - cbn. lia.
  - cbn [foldl]. rewrite IH, sum_of_cons. znum. lia.
Qed.

Lemma sum_of_app (f : A → Z) (l1 l2 : list A) :
  sum_of f (l1 ++ l2) = sum_of f l1 + sum_of f l2.
Proof.
  induction l1 as [|x l1 IH]; [done|].
  rewrite <- app_comm_cons, !sum_of_cons, IH. lia.
Qed.

Lemma sum_of_sub (f g : A → Z) (l : list A) :
  sum_of (λ x, f x - g x) l = sum_of f l - sum_of g l.
Proof.
  induction l as [|x l IH]; [done|].
  rewrite !sum_of_cons, IH. lia.
Qed.

End sums.

Section engine.
Context `{DateRuntime}.

Lemma month_year_is_spec {N} (t : Transaction N) m y :
  month_year_is (Date_parse (t_date t)) m y ↔ in_calendar_month m y t.
Proof.
  unfold month_year_is, in_calendar_month.
  destruct (Date_parse _); [|done].
  rewrite andb_True, !bool_decide_spec. done.
Qed.

Lemma monthTransactions_spec {N} (transactions : list (Transaction N)) m y :
  monthTransactions m y transactions
  = filter (in_calendar_month m y) transactions.
Proof. apply list_filter_iff. intros t. apply month_year_is_spec. Qed.

(** [pendingCollections] adds up what is still due on every transaction. *)
Lemma pendingCollections_sum now (customers : list Customer)
    (transactions : list (Transaction Z)) :
  pendingCollections (getDashboardStats now customers transactions)
  = sum_of (λ t, t_totalAmount t - t_amountPaid t) transactions.
Proof.
  cbn [getDashboardStats pendingCollections].
  rewrite (foldl_add_sum_of (λ t, num_sub (t_totalAmount t) (t_amountPaid t))).
  znum. lia.
Qed.

(** C2.  [getDashboardStats] returns the number of customers, the sum of
    [totalAmount] over exactly the transactions dated in the calendar month
    and year of the clock, and the sum of [totalAmount - amountPaid] over all
    transactions, whatever their dates. *)
Theorem getDashboardStats_totals now (customers : list Customer)
    (transactions : list (Transaction Z)) :
  let stats := getDashboardStats now customers transactions in
  totalCustomers stats = length customers
  ∧ thisMonthRevenue stats
    = sum_of t_totalAmount
        (filter (in_calendar_month (getMonth now) (getFullYear now))
           transactions)
  ∧ pendingCollections stats
    = sum_of (λ t, t_totalAmount t - t_amountPaid t) transactions.
Proof.
  split_and!; [done| |apply pendingCollections_sum].
  cbn [getDashboardStats thisMonthRevenue].
  rewrite foldl_add_sum_of, monthTransactions_spec. znum. lia.
Qed.

Lemma statusFilter_unbounded {N} (transactions : list (Transaction N)) :
  filter (λ t, statusFilter None None t) transactions = transactions.
Proof. apply filter_all, Forall_forall. intros t _. exact I. Qed.

(** The two ways of adding up what was collected are the same fold, whatever
    the arithmetic. *)
Lemma report_collected_any_number {N} `{JsNumber N}
    (customers : list Customer) (transactions : list (Transaction N)) :
  rs_totalCollected (generateReportSummary customers transactions)
  = collected (getPaymentStatusData transactions None None).
Proof.
  cbn [generateReportSummary rs_totalCollected getPaymentStatusData collected].
  by rewrite statusFilter_unbounded.
Qed.

(** C9 (amended).  With amounts in exact arithmetic the totals of the report
    agree with the aggregation engine: Total Collected is the [collected] of
    [getPaymentStatusData], and Pending Collection is both its [pending] and
    the [pendingCollections] of [getDashboardStats]. *)
Theorem generateReportSummary_agrees now (customers : list Customer)
    (transactions : list (Transaction Z)) :
  let report := generateReportSummary customers transactions in
  rs_totalCollected report
    = collected (getPaymentStatusData transactions None None)
  ∧ rs_pendingCollection report
    = psd_pending (getPaymentStatusData transactions None None)
  ∧ rs_pendingCollection report
    = pendingCollections (getDashboardStats now customers transactions).
Proof.
  intros report. subst report.
  assert (rs_pendingCollection (generateReportSummary customers transactions)
          = sum_of (λ t, t_totalAmount t - t_amountPaid t) transactions)
    as Hpending.
  { cbn [generateReportSummary rs_pendingCollection].
    rewrite !foldl_add_sum_of, sum_of_sub. znum. lia. }
  split_and!.
  - apply report_collected_any_number.
  - rewrite Hpending.
    cbn [getPaymentStatusData psd_pending]. rewrite statusFilter_unbounded.
    rewrite (foldl_add_sum_of (λ t, num_sub (t_totalAmount t) (t_amountPaid t))).
    znum. lia.
  - by rewrite Hpending, pendingCollections_sum.
Qed.

(** *** The revenue chart *)

(** Label and revenue of the iteration that runs with loop variable [i]. *)
Lemma chartLoop_unfold {N} `{JsNumber N} now (transactions : list (Transaction N))
    startDate endDate (k : nat) (acc : ChartData N) :
  let date i := Date_ymd (getFullYear now) (getMonth now - Z.of_nat i) 1 in
  let revenue i :=
    foldl (λ sum t, num_add sum (t_totalAmount t)) num_zero
      (filter (λ t, chartFilter (date i) startDate endDate t) transactions) in
  chartLoop now transactions startDate endDate k acc
  = mkChartData (labels acc ++ ((λ i, monthShort (date i)) <$> reverse (seq 0 k)))
      (data acc ++ (revenue <$> reverse (seq 0 k))).
Proof.
  intros date revenue. revert acc.
  induction k as [|k IH]; intros acc.
  - cbn. rewrite !app_nil_r. by destruct acc.
  - cbn [chartLoop]. rewrite IH. cbn [labels data].
    rewrite seq_S, reverse_snoc, !fmap_cons.
    rewrite <- !(assoc_L (++)). reflexivity.
Qed.

Lemma lookup_fmap_reverse_seq {B} (f : nat → B) (n k : nat) :
  (k < n)%nat → (f <$> reverse (seq 0 n)) !! k = Some (f (n - S k)%nat).
Proof.
  intros Hlt. rewrite list_lookup_fmap, reverse_lookup by (rewrite length_seq; lia).
  rewrite length_seq, lookup_seq_lt by lia. reflexivity.
Qed.

Lemma chartFilter_spec {N} (t : Transaction N) date startDate endDate :
  chartFilter date startDate endDate t ↔
    in_calendar_month (getMonth date) (getFullYear date) t
    ∧ match startDate, endDate with
      | Some s, Some e => in_date_range s e t
      | _, _ => True
      end.
Proof.
  unfold chartFilter. cbv zeta. rewrite andb_True, month_year_is_spec.
  destruct startDate as [s|], endDate as [e|]; try tauto.
  unfold in_date_range, date_leb. rewrite andb_True.
  destruct s as [s|], (Date_parse (t_date t)) as [tv|], e as [e|]; cbn;
    rewrite ?bool_decide_spec; tauto.
Qed.

(** C4 (amended).  [labels] and [data] have one entry per month of the
    trailing window, [months] of them; entry [k] (oldest first) belongs to
    the month that starts at [new Date(year, month - (months - 1 - k), 1)]:
    its label is the short name of that month and its value is the sum of
    [totalAmount] over the transactions dated in that calendar month and,
    when both [startDate] and [endDate] are supplied, also within
    [[startDate, endDate]]; when only one of the two (or none) is supplied
    no range filter applies. *)
Theorem getRevenueChartData_buckets now (transactions : list (Transaction Z))
    (months : Z) (startDate endDate : option JsDate) :
  let chart := getRevenueChartData now transactions months startDate endDate in
  length (labels chart) = Z.to_nat months
  ∧ length (data chart) = Z.to_nat months
  ∧ ∀ k : nat, (k < Z.to_nat months)%nat →
      let date :=
        Date_ymd (getFullYear now) (getMonth now - (months - 1 - Z.of_nat k)) 1 in
      labels chart !! k = Some (monthShort date)
      ∧ (∀ s e, startDate = Some s → endDate = Some e →
           data chart !! k
           = Some (sum_of t_totalAmount
                     (filter (λ t,
                        in_calendar_month (getMonth date) (getFullYear date) t
                        ∧ in_date_range s e t) transactions)))
      ∧ (startDate = None ∨ endDate = None →
           data chart !! k
           = Some (sum_of t_totalAmount
                     (filter
                        (in_calendar_month (getMonth date) (getFullYear date))
                        transactions))).
Proof.
  intros chart. subst chart. unfold getRevenueChartData.
  rewrite chartLoop_unfold. cbn [labels data app].
  rewrite !length_fmap, !length_reverse, !length_seq.
  split_and!; [done|done|].
  intros k Hk. cbv zeta.
  rewrite !lookup_fmap_reverse_seq by done.
  replace (Z.of_nat (Z.to_nat months - S k)) with (months - 1 - Z.of_nat k)
    by lia.
  rewrite foldl_add_sum_of. znum. rewrite Z.add_0_l.
  split_and!; [done| |].
  - intros s e -> ->. do 2 f_equal.
    apply list_filter_iff. intros t. by rewrite chartFilter_spec.
  - intros Hnone. do 2 f_equal.
    apply list_filter_iff. intros t. rewrite chartFilter_spec.
    destruct Hnone as [-> | ->]; [|destruct startDate]; tauto.
Qed.

(** *** The monthly rankings *)

Section sort_by_key.
Context {A : Type} (key : A → Z).

(** The comparator [(a, b) => key(b) - key(a)]. *)
Local Abbreviation compareFn := (λ a b : A, num_sub (key b) (key a)).
Local Abbreviation desc := (λ a b : A, key a >= key b).

Lemma sort_insert_HdRel a x l :
  desc a x → HdRel desc a l → HdRel desc a (sort_insert compareFn x l).
Proof.
  intros Hax Hal. destruct Hal as [|y l Hay]; cbn [sort_insert];
    [by constructor|].
  destruct (num_ltb num_zero (num_sub (key y) (key x))); by constructor.
Qed.

Lemma sort_insert_Sorted x l :
  Sorted desc l → Sorted desc (sort_insert compareFn x l).
Proof.
  induction 1 as [|y l Hl IH Hy]; cbn [sort_insert]; [by repeat constructor|].
  change (num_ltb num_zero (num_sub (key y) (key x)))
    with (0 <? key y - key x).
  destruct (0 <? key y - key x) eqn:Hcmp.
  - apply Z.ltb_lt in Hcmp.
    constructor; [done|]. apply sort_insert_HdRel; [cbn; lia|done].
  - apply Z.ltb_ge in Hcmp.
    constructor; [by constructor|]. constructor. cbn. lia.
Qed.

Lemma Array_sort_Sorted l : Sorted desc (Array_sort compareFn l).
Proof.
  induction l as [|x l IH]; cbn; [constructor|]. by apply sort_insert_Sorted.
Qed.

Lemma sort_insert_Permutation x l : sort_insert compareFn x l ≡ₚ x :: l.
Proof.
  induction l as [|y l IH]; cbn [sort_insert]; [done|].
  destruct (num_ltb num_zero (num_sub (key y) (key x))); [|done].
  rewrite IH. apply Permutation_swap.
Qed.

Lemma Array_sort_Permutation l : Array_sort compareFn l ≡ₚ l.
Proof.
  induction l as [|x l IH]; cbn; [done|].
  fold (Array_sort compareFn l). by rewrite sort_insert_Permutation, IH.
Qed.

Lemma Sorted_imap_key (f : nat → A → A) l :
  (∀ i x, key (f i x) = key x) → Sorted desc l → Sorted desc (imap f l).
Proof.
  intros Hkey Hl. revert f Hkey.
  induction Hl as [|x l Hl IH Hx]; intros f Hkey; [constructor|].
  rewrite imap_cons. constructor; [apply IH; intros; apply Hkey|].
  destruct Hx as [|y l Hxy]; [constructor|].
  rewrite imap_cons. constructor. cbn in *.
  unfold compose. rewrite !Hkey. done.
Qed.

End sort_by_key.

(** C3 (amended).  Whenever [getMonthlyRankings] returns a non-empty result,
    the result is sorted descending by [totalAmount] (an entry is never
    followed by a larger one; equal totals may follow each other) and the
    ranks read in order are exactly 1, 2, ..., n. *)
Theorem getMonthlyRankings_sorted_ranked now (customers : list Customer)
    (transactions : list (Transaction Z)) (month year : option Z) :
  let rankings := getMonthlyRankings now customers transactions month year in
  rankings ≠ [] →
  descending rankings
  ∧ r_rank <$> rankings = seq 1 (length rankings).
Proof.
  intros rankings _. subst rankings. unfold getMonthlyRankings, descending.
  cbv zeta. split.
  - apply Sorted_StronglySorted; [intros a b c; lia|].
    apply (Sorted_imap_key r_totalAmount); [done|].
    apply (Array_sort_Sorted r_totalAmount).
  - rewrite fmap_imap, length_imap. unfold compose. cbn [r_rank].
    rewrite (imap_seq_0 _ (λ i, (i + 1)%nat)).
    rewrite <- fmap_S_seq. apply list_fmap_ext. intros; lia.
Qed.

(** *** The top customer *)

Lemma totalFor_absent cid (l : list (Transaction Z)) :
  cid ∉ t_customerId <$> l → totalFor cid l = 0.
Proof.
  intros Hnin. unfold totalFor. rewrite filter_none; [done|].
  apply Forall_forall. intros t Ht Heq. apply Hnin.
  apply list_elem_of_fmap. by exists t.
Qed.

Lemma totalFor_snoc cid (l : list (Transaction Z)) t :
  totalFor cid (l ++ [t])
  = totalFor cid l + (if decide (t_customerId t = cid) then t_totalAmount t else 0).
Proof.
  unfold totalFor. rewrite filter_app, sum_of_app. f_equal.
  destruct (decide (t_customerId t = cid)) as [Heq|Hne].
  - rewrite filter_cons_True by done. cbn. lia.
  - by rewrite filter_cons_False.
Qed.

Lemma customerTotals_snoc {N} `{JsNumber N} (l : list (Transaction N)) t :
  customerTotals (l ++ [t])
  = JsMap.set (t_customerId t)
      (num_add (or_zero (JsMap.get (t_customerId t) (customerTotals l)))
         (t_totalAmount t))
      (customerTotals l).
Proof. unfold customerTotals. by rewrite foldl_app. Qed.

Lemma customerTotals_totals_of (l : list (Transaction Z)) :
  totals_of l (customerTotals l).
Proof.
  induction l as [|t l IH] using rev_ind.
  { split.
    - intros k. rewrite decide_False; [done|apply not_elem_of_nil].
    - constructor.
    - intros ks1 k ks2 Hks. by destruct ks1. }
  rewrite customerTotals_snoc.
  set (m := customerTotals l) in *. set (cid := t_customerId t).
  assert (or_zero (JsMap.get cid m) = totalFor cid l) as Hcur.
  { rewrite (totals_get _ _ IH). destruct (decide _) as [Hin|Hnin]; cbn.
    - znum. by destruct (Z.eqb_spec (totalFor cid l) 0) as [->|].
    - by rewrite totalFor_absent. }
  rewrite Hcur.
  assert (∀ k, k ∈ t_customerId <$> l ++ [t]
               ↔ k = cid ∨ k ∈ t_customerId <$> l) as Hids.
  { intros k. rewrite fmap_app, elem_of_app. cbn.
    rewrite list_elem_of_singleton. tauto. }
  assert (cid ∈ m.*1 ↔ cid ∈ t_customerId <$> l) as Hkeys.
  { destruct (JsMap.get cid m) eqn:Hget.
    - rewrite (totals_get _ _ IH) in Hget. split; intros ?.
      + by destruct (decide (cid ∈ t_customerId <$> l)).
      + destruct (decide (cid ∈ m.*1)) as [|Hnin]; [done|].
        apply JsMap_get_None in Hnin. rewrite (totals_get _ _ IH) in Hnin.
        by rewrite decide_True in Hnin.
    - pose proof Hget as Hnin%JsMap_get_None.
      rewrite (totals_get _ _ IH) in Hget. split; intros ?; [done|].
      by rewrite decide_True in Hget. }
  split.
  - intros k. rewrite JsMap_get_set, totalFor_snoc.
    destruct (decide (cid = k)) as [<-|Hne].
    + rewrite decide_True by (apply Hids; by left).
      rewrite decide_True by done. znum. done.
    + rewrite (decide_False (P := t_customerId t = k)) by done.
      rewrite (totals_get _ _ IH), Z.add_0_r.
      destruct (decide (k ∈ t_customerId <$> l)) as [Hin|Hnin].
      * rewrite decide_True; [done|]. apply Hids. by right.
      * rewrite decide_False; [done|]. rewrite Hids. intros [?|?]; done.
  - rewrite JsMap_set_keys. destruct (decide (cid ∈ m.*1)) as [Hin|Hnin].
    + apply (totals_NoDup _ _ IH).
    + apply NoDup_app. split_and!.
      * apply (totals_NoDup _ _ IH).
      * intros k Hk ->%list_elem_of_singleton. done.
      * apply NoDup_singleton.
  - intros ks1 k ks2. rewrite JsMap_set_keys.
    destruct (decide (cid ∈ m.*1)) as [Hin|Hnin].
    + intros Hks. destruct (totals_order _ _ IH _ _ _ Hks)
        as (l1 & t0 & l2 & -> & Ht0 & Hl1).
      exists l1, t0, (l2 ++ [t]). rewrite <- app_assoc. done.
    + intros Hks. destruct ks2 as [|k2 ks2] using rev_ind.
      * apply app_inj_tail in Hks as [Hm Hk]. subst k.
        exists l, t, []. split_and!; [done|done|].
        intros t' Ht'. rewrite <- Hm.
        assert (t_customerId t' ∈ t_customerId <$> l) as Hid
          by (apply list_elem_of_fmap; by exists t').
        destruct (decide (t_customerId t' ∈ m.*1)) as [|Hno]; [done|].
        apply JsMap_get_None in Hno. rewrite (totals_get _ _ IH) in Hno.
        by rewrite decide_True in Hno.
      * rewrite app_comm_cons, app_assoc in Hks.
        apply app_inj_tail in Hks as [Hm _].
        destruct (totals_order _ _ IH _ _ _ Hm)
          as (l1 & t0 & l2 & -> & Ht0 & Hl1).
        exists l1, t0, (l2 ++ [t]). rewrite <- app_assoc. done.
Qed.

(** The scan keeps the first entry with the largest amount, provided that
    amount exceeds the initial one. *)
Lemma topScan_from (m : list (string * Z)) (top0 : string * Z) :
  let top :=
    foldl (λ top e, if num_ltb top.2 e.2 then (e.1, e.2) else top) top0 m in
  (Forall (λ e, e.2 ≤ top0.2) m ∧ top = top0)
  ∨ (top0.2 < top.2
     ∧ ∃ m1 m2, m = m1 ++ top :: m2
                ∧ Forall (λ e, e.2 < top.2) m1 ∧ Forall (λ e, e.2 ≤ top.2) m2).
Proof.
  revert top0. induction m as [|[k a] m IH]; intros top0; cbn [foldl].
  { left. by split. }
  cbn [fst snd]. znum. destruct (Z.ltb_spec top0.2 a) as [Hlt|Hge].
  - right. destruct (IH (k, a)) as [[Hall ->]|(Hlt' & m1 & m2 & Hm & H1 & H2)];
      cbn [snd] in *.
    + split; [done|]. exists [], m. split_and!; [done|constructor|done].
    + split; [lia|]. exists ((k, a) :: m1), m2.
      split_and!; [by rewrite Hm at 1|by constructor|done].
  - destruct (IH top0) as [[Hall ->]|(Hlt' & m1 & m2 & Hm & H1 & H2)].
    + left. split; [by constructor|done].
    + right. split; [done|]. exists ((k, a) :: m1), m2.
      split_and!; [by rewrite Hm at 1|constructor; [cbn; lia|done]|done].
Qed.

Lemma topScan_spec (m : list (string * Z)) :
  (Forall (λ e, e.2 ≤ 0) m ∧ topScan m = (""%string, 0))
  ∨ (0 < (topScan m).2
     ∧ ∃ m1 m2, m = m1 ++ topScan m :: m2
                ∧ Forall (λ e, e.2 < (topScan m).2) m1
                ∧ Forall (λ e, e.2 ≤ (topScan m).2) m2).
Proof. apply (topScan_from m (""%string, 0)). Qed.

Lemma customerMonthTotal_filter m y cid (transactions : list (Transaction Z)) :
  customerMonthTotal m y cid transactions
  = totalFor cid (filter (in_calendar_month m y) transactions).
Proof.
  unfold customerMonthTotal, totalFor. rewrite list_filter_filter. f_equal.
  apply list_filter_iff. intros t. tauto.
Qed.

Lemma totals_of_entry l m k a :
  totals_of l m → (k, a) ∈ m → a = totalFor k l ∧ k ∈ t_customerId <$> l.
Proof.
  intros Hm Hin.
  apply JsMap_get_elem_of in Hin; [|apply (totals_NoDup _ _ Hm)].
  rewrite (totals_get _ _ Hm) in Hin.
  destruct (decide (k ∈ t_customerId <$> l)); [|done].
  by injection Hin as <-.
Qed.

Lemma totals_of_transaction l m t :
  totals_of l m → t ∈ l → (t_customerId t, totalFor (t_customerId t) l) ∈ m.
Proof.
  intros Hm Hin. apply JsMap_get_Some_elem_of.
  rewrite (totals_get _ _ Hm), decide_True; [done|].
  apply list_elem_of_fmap. by exists t.
Qed.

(** C5 (amended).  Let the total of a customer be the sum of [totalAmount]
    over that customer's transactions of the current calendar month.
    - When no customer of a current-month transaction has a positive total
      (in particular when there is no current-month transaction),
      [topCustomer.amount] is 0 and, no customer having the empty id,
      [topCustomer.customer] is null.
    - When some total is positive, [topCustomer.amount] is the highest total
      and [topCustomer.customer] is the first entry of [customers] with the
      id of the customer that attains it (null when there is none); among
      customers with that same total the one encountered first wins: every
      customer met before the first transaction of the winner has a strictly
      smaller total. *)
Theorem getDashboardStats_topCustomer now (customers : list Customer)
    (transactions : list (Transaction Z)) :
  let m := getMonth now in
  let y := getFullYear now in
  let monthTxs := filter (in_calendar_month m y) transactions in
  let total cid := customerMonthTotal m y cid transactions in
  let top := topCustomer (getDashboardStats now customers transactions) in
  ((∀ t, t ∈ monthTxs → total (t_customerId t) ≤ 0) →
     amount top = 0
     ∧ (Forall (λ c, c_id c ≠ ""%string) customers → customer top = None))
  ∧ ((∃ t, t ∈ monthTxs ∧ 0 < total (t_customerId t)) →
     ∃ l1 t l2,
       monthTxs = l1 ++ t :: l2
       ∧ 0 < amount top
       ∧ amount top = total (t_customerId t)
       ∧ customer top
         = snd <$> list_find (λ c, c_id c = t_customerId t) customers
       ∧ (∀ t', t' ∈ l1 → total (t_customerId t') < amount top)
       ∧ (∀ t', t' ∈ monthTxs → total (t_customerId t') ≤ amount top)).
Proof.
  intros m y monthTxs total top.
  assert (∀ cid, total cid = totalFor cid monthTxs) as Htotal
    by (intros cid; apply customerMonthTotal_filter).
  subst top. cbn [getDashboardStats topCustomer amount customer].
  rewrite monthTransactions_spec. fold m y monthTxs.
  pose proof (customerTotals_totals_of monthTxs) as Hmap.
  destruct (topScan_spec (customerTotals monthTxs))
    as [[Hall ->]|(Hlt & m1 & m2 & Hm & H1 & H2)];
    cbn [fst snd] in *.
  - split.
    + intros _. split; [done|]. intros Hids.
      by apply fmap_None, list_find_None.
    + intros (t & Ht & Hpos). exfalso.
      pose proof (totals_of_transaction _ _ _ Hmap Ht) as Hin.
      rewrite Forall_forall in Hall. apply Hall in Hin. cbn in Hin.
      rewrite Htotal in Hpos. lia.
  - assert (topScan (customerTotals monthTxs) ∈ customerTotals monthTxs)
      as Htop.
    { rewrite Hm at 2. apply elem_of_app. right. apply elem_of_cons. by left. }
    destruct (topScan (customerTotals monthTxs)) as [topId topAmount].
    cbn [fst snd] in *.
    destruct (totals_of_entry _ _ _ _ Hmap Htop) as [Hamount Hid].
    split.
    + intros Hnonpos. exfalso.
      apply list_elem_of_fmap in Hid as (t & -> & Ht).
      specialize (Hnonpos t Ht). rewrite Htotal in Hnonpos. lia.
    + intros _.
      assert ((customerTotals monthTxs).*1 = m1.*1 ++ topId :: m2.*1) as Hkeys
        by (by rewrite Hm at 1; rewrite fmap_app).
      destruct (totals_order _ _ Hmap _ _ _ Hkeys)
        as (l1 & t & l2 & Hsplit & Ht & Hl1).
      exists l1, t, l2. rewrite Ht, !Htotal.
      split_and!; [done|done|done|done| |].
      * intros t' Ht'. rewrite Htotal.
        apply Hl1, list_elem_of_fmap in Ht' as ([k a] & Hk & Hin).
        cbn in Hk. subst k.
        assert ((t_customerId t', a) ∈ customerTotals monthTxs) as Hin'.
        { rewrite Hm. apply elem_of_app. by left. }
        destruct (totals_of_entry _ _ _ _ Hmap Hin') as [<- _].
        rewrite Forall_forall in H1. by apply H1 in Hin.
      * intros t' Ht'. rewrite Htotal.
        pose proof (totals_of_transaction _ _ _ Hmap Ht') as Hin.
        rewrite Hm in Hin at 1.
        apply elem_of_app in Hin as [Hin|Hin].
        { rewrite Forall_forall in H1. apply H1 in Hin. cbn in Hin. lia. }
        apply elem_of_cons in Hin as [Heq|Hin].
        { injection Heq as _ Heq. lia. }
        rewrite Forall_forall in H2. by apply H2 in Hin.
Qed.

End engine.

(** ** The code on concrete data, with UTC as the local time zone *)

Section examples.
#[local] Existing Instance UTC.runtime.

Example utc_parse_march :
  UTC.parse "2024-03-15T10:30:00.000Z" = Some Sample.now
  ∧ getMonth Sample.now = 2 ∧ getFullYear Sample.now = 2024.
Proof. vm_compute. done. Qed.

(** March 2024 on the sample ledger: two customers, 2700 sold this month,
    0 + 1000 + 300 + 500 = 1800 still to collect, Alice on top with 1500. *)
Example getDashboardStats_ledger :
  getDashboardStats Sample.now [Sample.alice; Sample.bob] Sample.ledger
  = mkDashboardStats 2 2700 1800 (mkTopCustomer (Some Sample.alice) 1500).
Proof. vm_compute. reflexivity. Qed.

(** *** Rankings *)

Example getMonthlyRankings_ledger :
  getMonthlyRankings Sample.now [Sample.alice; Sample.bob] Sample.ledger
    None None
  = [mkRankedCustomer Sample.alice 1 1500 2;
     mkRankedCustomer Sample.bob 2 1200 1].
Proof. vm_compute. reflexivity. Qed.

Lemma getMonthlyRankings_sorted_ranked_witness :
  descending
    (getMonthlyRankings Sample.now [Sample.alice; Sample.bob] Sample.ledger
       None None)
  ∧ r_rank <$>
      getMonthlyRankings Sample.now [Sample.alice; Sample.bob] Sample.ledger
        None None
    = seq 1
        (length
           (getMonthlyRankings Sample.now [Sample.alice; Sample.bob]
              Sample.ledger None None)).
Proof.
  apply (getMonthlyRankings_sorted_ranked Sample.now
           [Sample.alice; Sample.bob] Sample.ledger None None).
  vm_compute. discriminate.
Defined.

(** C3, as stated, fails: two customers with the same total for the month
    are both listed, with ranks 1 and 2, and the result is not strictly
    descending. *)
Lemma getMonthlyRankings_strict_counterexample :
  let rankings :=
    getMonthlyRankings Sample.now [Sample.alice; Sample.bob] Sample.tied
      None None in
  rankings ≠ []
  ∧ r_totalAmount <$> rankings = [100; 100]
  ∧ r_rank <$> rankings = [1%nat; 2%nat]
  ∧ ¬ strictly_descending rankings.
Proof.
  intros rankings.
  assert (rankings = [mkRankedCustomer Sample.alice 1 100 1;
                      mkRankedCustomer Sample.bob 2 100 1]) as ->
    by (vm_compute; reflexivity).
  split_and!; [done|done|done|].
  intros Hsorted. apply Sorted_inv in Hsorted as [_ Hhd].
  apply HdRel_inv in Hhd. cbn in Hhd. lia.
Qed.

(** *** Revenue chart *)

(** The example of the specification: no transactions, three months. *)
Example getRevenueChartData_empty :
  getRevenueChartData Sample.now ([] : list (Transaction Z)) 3 None None
  = mkChartData ["Jan"; "Feb"; "Mar"]%string [0; 0; 0].
Proof. vm_compute. reflexivity. Qed.

Example getRevenueChartData_ledger :
  getRevenueChartData Sample.now Sample.ledger 3
    (Some (UTC.parse "2024-02-01T00:00:00.000Z"))
    (Some (UTC.parse "2024-03-03T00:00:00.000Z"))
  = mkChartData ["Jan"; "Feb"; "Mar"]%string [0; 300; 2200].
Proof. vm_compute. reflexivity. Qed.

Lemma getRevenueChartData_buckets_witness :
  let chart :=
    getRevenueChartData Sample.now Sample.ledger 3
      (Some (UTC.parse "2024-02-01T00:00:00.000Z"))
      (Some (UTC.parse "2024-03-03T00:00:00.000Z")) in
  length (data chart) = 3%nat
  ∧ data chart !! 2%nat
    = Some (sum_of t_totalAmount
              (filter (λ t,
                 in_calendar_month 2 2024 t
                 ∧ in_date_range (UTC.parse "2024-02-01T00:00:00.000Z")
                     (UTC.parse "2024-03-03T00:00:00.000Z") t)
                 Sample.ledger)).
Proof.
  intros chart.
  destruct (getRevenueChartData_buckets Sample.now Sample.ledger 3
              (Some (UTC.parse "2024-02-01T00:00:00.000Z"))
              (Some (UTC.parse "2024-03-03T00:00:00.000Z")))
    as (_ & Hlen & Hbuckets).
  split; [exact Hlen|].
  destruct (Hbuckets 2%nat) as (_ & Hboth & _); [vm_compute; lia|].
  exact (Hboth _ _ eq_refl eq_refl).
Defined.

(** C4, as stated, fails: with [startDate] = 10 March 2024 and no [endDate],
    a sale of 5 March is outside the supplied range, so the March bucket
    should be 0; the code applies no range filter and reports 500. *)
Lemma getRevenueChartData_one_bound_counterexample :
  let transactions :=
    [Sample.tx "t4" "c1" "2024-03-05T10:00:00.000Z" 500 0 pending] in
  let startDate := Some (UTC.parse "2024-03-10T00:00:00.000Z") in
  data (getRevenueChartData Sample.now transactions 1 startDate None) = [500]
  ∧ sum_of t_totalAmount
      (filter (λ t, in_calendar_month 2 2024 t
                    ∧ in_supplied_range startDate None t) transactions) = 0.
Proof. vm_compute. split; reflexivity. Qed.

(** *** Top customer *)

(** On the sample ledger Alice wins March 2024 with 1500 against Bob's 1200;
    without transactions the top customer is null with amount 0. *)
Lemma getDashboardStats_topCustomer_witness :
  let top :=
    topCustomer
      (getDashboardStats Sample.now [Sample.alice; Sample.bob] Sample.ledger) in
  (∃ l1 t l2,
     filter (in_calendar_month 2 2024) Sample.ledger = l1 ++ t :: l2
     ∧ 0 < amount top
     ∧ amount top = customerMonthTotal 2 2024 (t_customerId t) Sample.ledger
     ∧ customer top
       = snd <$> list_find (λ c, c_id c = t_customerId t)
                   [Sample.alice; Sample.bob]
     ∧ (∀ t', t' ∈ l1 →
          customerMonthTotal 2 2024 (t_customerId t') Sample.ledger
          < amount top)
     ∧ (∀ t', t' ∈ filter (in_calendar_month 2 2024) Sample.ledger →
          customerMonthTotal 2 2024 (t_customerId t') Sample.ledger
          ≤ amount top))
  ∧ amount
      (topCustomer
         (getDashboardStats Sample.now [Sample.alice; Sample.bob] [])) = 0
  ∧ customer
      (topCustomer
         (getDashboardStats Sample.now [Sample.alice; Sample.bob] [])) = None.
Proof.
  intros top. split.
  - destruct (getDashboardStats_topCustomer Sample.now
                [Sample.alice; Sample.bob] Sample.ledger) as [_ Hpos].
    apply Hpos.
    exists (Sample.tx "t2" "c2" "2024-03-02T10:00:00.000Z" 1200 200 partial).
    split; [|vm_compute; reflexivity].
    apply list_elem_of_filter. split; [vm_compute; done|].
    apply elem_of_cons. right. apply elem_of_cons. by left.
  - destruct (getDashboardStats_topCustomer Sample.now
                [Sample.alice; Sample.bob] []) as [Hnone _].
    destruct Hnone as [Hamount Hcustomer].
    + intros t Ht. by apply elem_of_nil in Ht.
    + split; [exact Hamount|]. apply Hcustomer.
      repeat constructor; discriminate.
Defined.

(** C5, as stated, fails: Alice has a current-month transaction (a free
    sample, total 0), yet [topCustomer] is [{ customer: null, amount: 0 }],
    the value reserved for a month without transactions, and Alice, who has
    the highest total of the month, is not reported. *)
Lemma getDashboardStats_topCustomer_counterexample :
  filter (in_calendar_month (getMonth Sample.now) (getFullYear Sample.now))
    Sample.free_sample = Sample.free_sample
  ∧ Sample.free_sample ≠ []
  ∧ topCustomer (getDashboardStats Sample.now [Sample.alice] Sample.free_sample)
    = mkTopCustomer None 0.
Proof. vm_compute. split_and!; done. Qed.

(** *** Report against dashboard *)

#[local] Set Warnings "-inexact-float".

(** C9, as stated, fails on decimal amounts: a sale of 19.99 paid in full and
    a sale of 5.49 not paid at all.  The report computes
    (19.99 + 5.49) - (19.99 + 0), which is 5.489999999999998 in binary64; the
    engine adds (19.99 - 19.99) + (5.49 - 0), which is 5.49. *)
Lemma generateReportSummary_float_counterexample :
  let report := generateReportSummary [Sample.alice] Sample.decimals in
  let status := getPaymentStatusData Sample.decimals None None in
  let stats := getDashboardStats Sample.now [Sample.alice] Sample.decimals in
  rs_totalCollected report = collected status
  ∧ rs_pendingCollection report = 5.4899999999999984%float
  ∧ psd_pending status = 5.49%float
  ∧ pendingCollections stats = 5.49%float
  ∧ rs_pendingCollection report ≠ psd_pending status
  ∧ rs_pendingCollection report ≠ pendingCollections stats.
Proof.
  intros report status stats.
  assert (PrimFloat.ltb (rs_pendingCollection report) (psd_pending status)
          = true) as Hlt by (vm_compute; reflexivity).
  assert (psd_pending status = pendingCollections stats) as Heq
    by (vm_compute; reflexivity).
  assert (rs_pendingCollection report ≠ psd_pending status) as Hne.
  { intros Hx. rewrite Hx in Hlt. vm_compute in Hlt. discriminate. }
  split_and!; try (vm_compute; reflexivity); [done|by rewrite <- Heq].
Qed.

#[local] Set Warnings "inexact-float".

End examples.

(** * Further properties *)

(** ** More about the store *)

Section list_facts_more.
Context {A : Type} (P : A → Prop) `{!∀ x, Decision (P x)}.

Lemma filter_idemp (l : list A) : filter P (filter P l) = filter P l.
Proof.
  rewrite list_filter_filter. apply list_filter_iff. intros x. tauto.
Qed.

Lemma filter_filter_comm (Q : A → Prop) `{!∀ x, Decision (Q x)} (l : list A) :
  filter P (filter Q l) = filter Q (filter P l).
Proof.
  rewrite !list_filter_filter. apply list_filter_iff. intros x. tauto.
Qed.

Lemma filter_filter_implied (Q : A → Prop) `{!∀ x, Decision (Q x)}
    (l : list A) :
  (∀ x, P x → Q x) → filter P (filter Q l) = filter P l.
Proof.
  intros HPQ. rewrite list_filter_filter. apply list_filter_iff.
  intros x. split; [tauto|]. intros HP. split; [done|by apply HPQ].
Qed.

Lemma list_find_insert_other (l : list A) (i j : nat) (x y z : A) :
  list_find P l = Some (j, x) → l !! i = Some z → ¬ P z → ¬ P y →
  list_find P (<[i := y]> l) = Some (j, x).
Proof.
  intros Hfind Hi Hz Hy. apply list_find_Some in Hfind as (Hj & Hx & Hbefore).
  assert (i ≠ j) as Hne by (intros ->; congruence).
  apply list_find_Some. split_and!; [|done|].
  - by rewrite list_lookup_insert_ne.
  - intros k w Hk Hlt. destruct (decide (k = i)) as [->|Hki].
    + rewrite list_lookup_insert_eq in Hk by (by eapply lookup_lt_Some).
      by injection Hk as <-.
    + rewrite list_lookup_insert_ne in Hk by done. eauto.
Qed.

Lemma list_find_insert_None (l : list A) (i : nat) (y : A) :
  list_find P l = None → ¬ P y → list_find P (<[i := y]> l) = None.
Proof.
  rewrite !list_find_None, !Forall_forall. intros Hall Hy x Hx.
  apply list_elem_of_lookup in Hx as [k Hk].
  destruct (decide (k = i)) as [->|Hki].
  - destruct (decide (i < length l)%nat) as [Hlt|Hge].
    + rewrite list_lookup_insert_eq in Hk by done. by injection Hk as <-.
    + rewrite list_insert_ge in Hk by lia.
      apply Hall, list_elem_of_lookup. eauto.
  - rewrite list_lookup_insert_ne in Hk by done.
    apply Hall, list_elem_of_lookup. eauto.
Qed.

End list_facts_more.

Section store_more.
Context {N : Type} `{JsNumber N}.
Implicit Types (st : Store N) (tx : Transaction N) (p : Payment N).

Lemma addCustomer_run st newId nowIso customer :
  addCustomer newId nowIso customer st =
    (let c :=
       mkCustomer newId (c_name customer) (c_businessName customer)
         (c_mobile customer) (c_email customer) (c_address customer)
         (c_businessType customer) (c_cardImageUri customer) nowIso nowIso in
     (c, mkStore (c :: s_customers st) (s_transactions st) (s_payments st))).
Proof. reflexivity. Qed.

(** X1.  A customer that was just added is the first one with its id, so it
    is the one [updateCustomer] and [customers.find] reach, even when an
    older customer carries the same id.  When the id is fresh (no customer,
    transaction or payment refers to it), deleting it again restores the
    store exactly. *)
Theorem addCustomer_found_and_deleted st newId nowIso customer :
  let c := eval (addCustomer newId nowIso customer) st in
  let st' := exec (addCustomer newId nowIso customer) st in
  list_find (λ c, c_id c = newId) (s_customers st') = Some (0%nat, c)
  ∧ s_customers (exec (deleteCustomer newId) st')
    = filter (λ c, c_id c ≠ newId) (s_customers st)
  ∧ (Forall (λ c, c_id c ≠ newId) (s_customers st) →
     Forall (λ t, t_customerId t ≠ newId) (s_transactions st) →
     Forall (λ p, pay_customerId p ≠ newId) (s_payments st) →
     exec (deleteCustomer newId) st' = st).
Proof.
  intros c st'. subst c st'. unfold exec, eval.
  rewrite addCustomer_run. cbn [fst snd]. rewrite deleteCustomer_run.
  cbn [fst snd s_customers s_transactions s_payments]. split_and!.
  - cbn. by rewrite decide_True.
  - by rewrite filter_cons_False by (intros Hne; by apply Hne).
  - intros Hc Ht Hp. destruct st as [cs ts ps].
    cbn [s_customers s_transactions s_payments] in *.
    rewrite filter_cons_False by (intros Hne; by apply Hne).
    by rewrite !filter_all.
Qed.

Lemma addTransaction_run st newId nowIso (t : Transaction N) :
  addTransaction newId nowIso t st =
    (let t' :=
       mkTransaction newId (t_customerId t) (t_date t) (t_products t)
         (t_totalAmount t) (t_amountPaid t) (t_status t) (t_notes t) nowIso in
     (t', mkStore (s_customers st) (t' :: s_transactions st) (s_payments st))).
Proof. reflexivity. Qed.

(** X2.  After [addTransaction] the new transaction heads the list that
    [getCustomerTransactions] returns for its customer, with the amounts and
    the status exactly as the caller gave them; the lists of all other
    customers are unchanged. *)
Theorem addTransaction_getCustomerTransactions st newId nowIso
    (t : Transaction N) (customerId : string) :
  let t' := eval (addTransaction newId nowIso t) st in
  let st' := exec (addTransaction newId nowIso t) st in
  t_id t' = newId ∧ t_totalAmount t' = t_totalAmount t
  ∧ t_amountPaid t' = t_amountPaid t ∧ t_status t' = t_status t
  ∧ eval (getCustomerTransactions customerId) st'
    = if decide (t_customerId t = customerId)
      then t' :: eval (getCustomerTransactions customerId) st
      else eval (getCustomerTransactions customerId) st.
Proof.
  intros t' st'. subst t' st'. unfold exec, eval.
  rewrite addTransaction_run. cbn [fst snd]. split_and!; done.
Qed.

(** X5.  After [addPayment] the new payment heads the list that
    [getCustomerPayments] returns for the [customerId] it carries (whether or
    not that is the customer of the transaction it pays); the lists of all
    other customers are unchanged. *)
Theorem addPayment_getCustomerPayments st newId p (customerId : string) :
  let p' := eval (addPayment newId p) st in
  let st' := exec (addPayment newId p) st in
  pay_id p' = newId
  ∧ eval (getCustomerPayments customerId) st'
    = if decide (pay_customerId p = customerId)
      then p' :: eval (getCustomerPayments customerId) st
      else eval (getCustomerPayments customerId) st.
Proof.
  intros p' st'. subst p' st'. unfold exec, eval.
  rewrite addPayment_run. cbn [fst snd]. split; done.
Qed.

Lemma updateTransaction_run st id (updates : TransactionPatch N) :
  updateTransaction id updates st =
    match list_find (λ t, t_id t = id) (s_transactions st) with
    | None => (None, st)
    | Some (index, t) =>
        let t' := spread_transaction t updates in
        (Some t',
         mkStore (s_customers st) (<[index := t']> (s_transactions st))
           (s_payments st))
    end.
Proof.
  unfold updateTransaction. io_run.
  destruct (list_find _ _) as [[index t]|]; [reflexivity|by destruct st].
Qed.


(** X4.  [deleteCustomer] is idempotent, and it does not touch what belongs
    to other customers: for every other id the customers with that id and the
    results of [getCustomerTransactions] and [getCustomerPayments] are the
    same before and after. *)
Theorem deleteCustomer_idempotent_frame st id other :
  exec (deleteCustomer id) (exec (deleteCustomer id) st)
  = exec (deleteCustomer id) st
  ∧ (other ≠ id →
     filter (λ c, c_id c = other) (s_customers (exec (deleteCustomer id) st))
     = filter (λ c, c_id c = other) (s_customers st)
     ∧ eval (getCustomerTransactions other) (exec (deleteCustomer id) st)
       = eval (getCustomerTransactions other) st
     ∧ eval (getCustomerPayments other) (exec (deleteCustomer id) st)
       = eval (getCustomerPayments other) st).
Proof.
  unfold exec, eval. rewrite !deleteCustomer_run. cbn [fst snd]. split.
  - cbn. by rewrite !filter_idemp.
  - intros Hne. cbn.
    split_and!; apply filter_filter_implied; intros x ->; done.
Qed.

End store_more.

(** ** Sequences of payments *)

Section payments.
Context {N : Type} `{JsNumber N}.
Implicit Types (st : Store N) (tx : Transaction N) (p : Payment N).

Lemma addPayment_transactions st newId p :
  s_transactions (exec (addPayment newId p) st)
  = transactionsAfter p (s_transactions st).
Proof. unfold exec. by rewrite addPayment_run. Qed.

Lemma addPayment_payments st newId p :
  s_payments (exec (addPayment newId p) st)
  = recorded (newId, p) :: s_payments st.
Proof. unfold exec. by rewrite addPayment_run. Qed.

Lemma addPayment_customers st newId p :
  s_customers (exec (addPayment newId p) st) = s_customers st.
Proof. unfold exec. by rewrite addPayment_run. Qed.

Lemma addPayments_cons st newId p calls :
  exec (addPayments ((newId, p) :: calls)) st
  = exec (addPayments calls) (exec (addPayment newId p) st).
Proof.
  unfold exec. cbn [addPayments]. cbv [mbind IO_bind].
  by destruct (addPayment newId p st).
Qed.

Lemma transactionsAfter_other (p q : Payment N) (l : list (Transaction N)) :
  pay_transactionId p ≠ pay_transactionId q →
  list_find (λ t, t_id t = pay_transactionId q) (transactionsAfter p l)
  = list_find (λ t, t_id t = pay_transactionId q) l.
Proof.
  intros Hne. unfold transactionsAfter.
  destruct (list_find (λ t, t_id t = pay_transactionId p) l)
    as [[i tx]|] eqn:Hp; [|done].
  pose proof Hp as (Hi & Hid & _)%list_find_Some.
  destruct (list_find (λ t, t_id t = pay_transactionId q) l)
    as [[j ty]|] eqn:Hq.
  - apply (list_find_insert_other _ _ _ _ _ _ tx); try done;
      cbn; congruence.
  - apply list_find_insert_None; [done|]. cbn. congruence.
Qed.

Lemma transactionsAfter_fmap p (l : list (Transaction N)) :
  NoDup (t_id <$> l) →
  transactionsAfter p l
  = (λ t, if decide (t_id t = pay_transactionId p) then withPayment t p else t)
      <$> l.
Proof.
  intros Hnd. unfold transactionsAfter.
  destruct (list_find (λ t, t_id t = pay_transactionId p) l)
    as [[i tx]|] eqn:Hp.
  - pose proof Hp as (Hi & Hid & _)%list_find_Some.
    apply list_eq. intros k. rewrite list_lookup_fmap.
    destruct (decide (k = i)) as [->|Hki].
    + rewrite list_lookup_insert_eq by (by eapply lookup_lt_Some).
      rewrite Hi. cbn. by rewrite decide_True.
    + rewrite list_lookup_insert_ne by done.
      destruct (l !! k) as [z|] eqn:Hk; [|done]. cbn.
      rewrite decide_False; [done|]. intros Hz. apply Hki.
      apply (NoDup_lookup (t_id <$> l) k i (t_id z)); [done| |].
      * by rewrite list_lookup_fmap, Hk.
      * rewrite list_lookup_fmap, Hi. cbn. congruence.
  - apply list_find_None in Hp. rewrite <- (list_fmap_id l) at 1.
    apply list_fmap_ext. intros k z Hk. rewrite decide_False; [done|].
    rewrite Forall_forall in Hp. apply Hp, list_elem_of_lookup. eauto.
Qed.

End payments.

Section payments_exact.
Implicit Types (st : Store Z) (tx : Transaction Z) (p : Payment Z).

Lemma withPayment_comm tx (p q : Payment Z) :
  withPayment (withPayment tx p) q = withPayment (withPayment tx q) p.
Proof.
  unfold withPayment. cbn [t_id t_customerId t_date t_products t_totalAmount
    t_amountPaid t_notes t_createdAt]. znum.
  replace (t_amountPaid tx + pay_amount q + pay_amount p)
    with (t_amountPaid tx + pay_amount p + pay_amount q) by lia.
  reflexivity.
Qed.


Lemma addPayments_transactions_fmap st calls :
  NoDup (t_id <$> s_transactions st) →
  s_transactions (exec (addPayments calls) st)
  = (λ t, foldl withPayment t
            (filter (λ p, pay_transactionId p = t_id t) (snd <$> calls)))
      <$> s_transactions st.
Proof.
  revert st. induction calls as [|[newId p] calls IH]; intros st Hnd.
  - cbn. by rewrite list_fmap_id.
  - rewrite addPayments_cons, IH.
    + rewrite addPayment_transactions, transactionsAfter_fmap by done.
      rewrite <- list_fmap_compose. apply list_fmap_ext. intros k t Hk.
      unfold compose. rewrite fmap_cons. cbn [snd].
      destruct (decide (t_id t = pay_transactionId p)) as [Heq|Hne].
      * rewrite filter_cons_True by done. by rewrite withPayment_id.
      * by rewrite filter_cons_False by done.
    + rewrite addPayment_transactions, transactionsAfter_fmap by done.
      rewrite <- list_fmap_compose.
      erewrite list_fmap_ext; [exact Hnd|]. intros k t Hk.
      unfold compose. by destruct (decide _).
Qed.

Lemma addPayments_payments st calls :
  s_payments (exec (addPayments calls) st)
  = reverse (recorded <$> calls) ++ s_payments st.
Proof.
  revert st. induction calls as [|[newId p] calls IH]; intros st; [done|].
  rewrite addPayments_cons, IH, addPayment_payments.
  rewrite fmap_cons, reverse_cons, <- app_assoc. done.
Qed.

Lemma filter_recorded (calls : list (string * Payment Z)) (tid : string) :
  filter (λ p, pay_transactionId p = tid) (recorded <$> calls)
  = recorded <$> filter (λ c, pay_transactionId c.2 = tid) calls.
Proof.
  induction calls as [|[newId p] calls IH]; [done|].
  rewrite fmap_cons.
  destruct (decide (pay_transactionId p = tid)) as [Heq|Hne].
  - rewrite !filter_cons_True by done. by rewrite IH.
  - by rewrite !filter_cons_False by done.
Qed.

Lemma filter_snd_calls (calls : list (string * Payment Z)) (tid : string) :
  filter (λ p, pay_transactionId p = tid) (snd <$> calls)
  = snd <$> filter (λ c, pay_transactionId c.2 = tid) calls.
Proof.
  induction calls as [|[newId p] calls IH]; [done|].
  rewrite fmap_cons. cbn [snd].
  destruct (decide (pay_transactionId p = tid)) as [Heq|Hne].
  - rewrite !filter_cons_True by done. by rewrite IH.
  - by rewrite !filter_cons_False by done.
Qed.

Lemma sum_of_recorded (calls : list (string * Payment Z)) :
  sum_of pay_amount (recorded <$> calls) = sum_of pay_amount (snd <$> calls).
Proof.
  induction calls as [|[newId p] calls IH]; [done|].
  rewrite !fmap_cons, !sum_of_cons, IH. done.
Qed.

(** X7.  The two collections stay consistent.  When the transactions have
    distinct ids, after any sequence of [addPayment] calls (for any mix of
    transactions, known or not): the payments collection holds the recorded
    payments, newest first, before the old ones; every transaction keeps its
    place, id and [totalAmount]; its [amountPaid] has grown by exactly the
    sum of the amounts recorded for its id; it is untouched when no payment
    was recorded for it, and obeys the status rule of the code when one was. *)
Theorem addPayments_ledger_consistent st calls :
  NoDup (t_id <$> s_transactions st) →
  let st' := exec (addPayments calls) st in
  s_payments st' = reverse (recorded <$> calls) ++ s_payments st
  ∧ t_id <$> s_transactions st' = t_id <$> s_transactions st
  ∧ ∀ i tx, s_transactions st !! i = Some tx →
      let paidFor :=
        filter (λ p, pay_transactionId p = t_id tx) (recorded <$> calls) in
      ∃ tx',
        s_transactions st' !! i = Some tx'
        ∧ t_id tx' = t_id tx
        ∧ t_totalAmount tx' = t_totalAmount tx
        ∧ t_amountPaid tx' = t_amountPaid tx + sum_of pay_amount paidFor
        ∧ (paidFor = [] → tx' = tx)
        ∧ (paidFor ≠ [] → status_rule tx').
Proof.
  intros Hnd st'. subst st'.
  rewrite addPayments_payments, addPayments_transactions_fmap by done.
  assert (∀ t : Transaction Z,
            t_id (foldl withPayment t
                    (filter (λ p, pay_transactionId p = t_id t)
                       (snd <$> calls))) = t_id t) as Hid.
  { intros t. generalize (filter (λ p, pay_transactionId p = t_id t)
                            (snd <$> calls)).
    intros ps. revert t. induction ps as [|p ps IH]; intros t; [done|].
    cbn [foldl]. by rewrite IH. }
  split_and!; [done| |].
  - rewrite <- list_fmap_compose. apply list_fmap_ext. intros k t _. apply Hid.
  - intros i tx Hi paidFor.
    subst paidFor. rewrite filter_recorded.
    set (mine := filter (λ c, pay_transactionId c.2 = t_id tx) calls).
    exists (foldl withPayment tx (snd <$> mine)).
    split_and!.
    + rewrite list_lookup_fmap, Hi. cbn. by rewrite filter_snd_calls.
    + specialize (Hid tx). by rewrite filter_snd_calls in Hid.
    + apply foldl_withPayment_totalAmount.
    + rewrite sum_of_recorded. apply foldl_withPayment_amountPaid.
    + intros Hempty%fmap_nil_inv. by rewrite Hempty.
    + intros Hsome. apply foldl_withPayment_status_rule.
      intros Hempty%fmap_nil_inv. apply Hsome. by rewrite Hempty.
Qed.

End payments_exact.

(** ** The forms *)

Section forms.
Context {N : Type} `{JsNumber N} (trim : string → string).
Implicit Types (st : Store N).

Lemma EditCustomer_handleSave_run st customer formData nowIso :
  EditCustomer_handleSave trim customer formData nowIso st =
    if truthy (trim (f_name formData)) then
      (CustomerSaved,
       exec (updateCustomer nowIso (c_id customer) (formPatch formData None))
         st)
    else (NameRequired, st).
Proof.
  unfold EditCustomer_handleSave, exec.
  destruct (truthy _); cbn; [|done]. cbv [mbind IO_bind].
  by destruct (updateCustomer _ _ _ st).
Qed.

(** X8.  [EditCustomerScreen.handleSave] stores nothing when the name is
    blank after trimming.  Otherwise, when the customer on screen is still in
    the store, the first customer with its id is replaced in place by one
    with the same id, the same [createdAt] and the same card image, the six
    form fields as typed, and [updatedAt] set to the current time; the
    transactions and payments are untouched.  When no customer has that id
    any more the store is unchanged, yet the handler reports success. *)
Theorem EditCustomer_handleSave_effect st customer formData nowIso :
  let r := eval (EditCustomer_handleSave trim customer formData nowIso) st in
  let st' := exec (EditCustomer_handleSave trim customer formData nowIso) st in
  (trim (f_name formData) = ""%string → r = NameRequired ∧ st' = st)
  ∧ (trim (f_name formData) ≠ ""%string →
     r = CustomerSaved
     ∧ s_transactions st' = s_transactions st
     ∧ s_payments st' = s_payments st
     ∧ (list_find (λ c, c_id c = c_id customer) (s_customers st) = None →
        st' = st)
     ∧ (∀ i c,
          list_find (λ c, c_id c = c_id customer) (s_customers st)
            = Some (i, c) →
          ∃ c',
            s_customers st' = <[i := c']> (s_customers st)
            ∧ c_id c' = c_id c
            ∧ c_createdAt c' = c_createdAt c
            ∧ c_cardImageUri c' = c_cardImageUri c
            ∧ c_updatedAt c' = nowIso
            ∧ mkFormData (c_name c') (c_businessName c') (c_mobile c')
                (c_email c') (c_address c') (c_businessType c') = formData)).
Proof.
  intros r st'. subst r st'. unfold exec at 1 2 3 4 5, eval.
  rewrite EditCustomer_handleSave_run. unfold truthy. split.
  - intros ->. by rewrite bool_decide_false by (intros Hne; by apply Hne).
  - intros Hname. rewrite bool_decide_true by done. cbn [fst snd].
    unfold exec. rewrite updateCustomer_run.
    destruct (list_find _ _) as [[j d]|] eqn:Hfind; cbn.
    + split_and!; try done. intros i c [= <- <-].
      eexists. split_and!; try reflexivity. by destruct formData.
    + split_and!; try done.
Qed.

Lemma ConfirmDetails_handleSave_run st formData imageUri existingCustomerId
    newId nowIso :
  ConfirmDetails_handleSave trim formData imageUri existingCustomerId newId
    nowIso st =
    if truthy (trim (f_name formData)) then
      (CustomerSaved,
       if truthy (default ""%string existingCustomerId) then
         exec (updateCustomer nowIso (default ""%string existingCustomerId)
                 (formPatch formData (Some imageUri))) st
       else
         exec (addCustomer newId nowIso
                 (mkCustomer "" (f_name formData) (f_businessName formData)
                    (f_mobile formData) (f_email formData)
                    (f_address formData) (f_businessType formData)
                    (Some imageUri) "" "")) st)
    else (NameRequired, st).
Proof.
  unfold ConfirmDetails_handleSave, exec.
  destruct (truthy (trim _)); cbn; [|done].
  destruct existingCustomerId as [id|]; cbn; [destruct (truthy id)|];
    cbv [mbind IO_bind];
    by repeat match goal with |- context [?m st] =>
                is_var st; destruct (m st) end.
Qed.

(** X9.  [ConfirmDetailsScreen.handleSave], once the name is not blank:
    with no existing id, or with the empty string as id, it adds a new
    customer at the head of the collection, under the fresh id and with the
    scanned image; with an existing id that is in the store it updates that
    customer in place, keeping the id and [createdAt] and replacing the card
    image; with an existing id that is not in the store it changes nothing.
    With a blank name it changes nothing.  Transactions and payments are
    never touched. *)
Theorem ConfirmDetails_handleSave_effect st formData imageUri
    existingCustomerId newId nowIso :
  let st' :=
    exec (ConfirmDetails_handleSave trim formData imageUri existingCustomerId
            newId nowIso) st in
  s_transactions st' = s_transactions st
  ∧ s_payments st' = s_payments st
  ∧ (trim (f_name formData) = ""%string → st' = st)
  ∧ (trim (f_name formData) ≠ ""%string →
     (existingCustomerId = None ∨ existingCustomerId = Some ""%string →
      ∃ c, s_customers st' = c :: s_customers st
           ∧ c_id c = newId ∧ c_createdAt c = nowIso ∧ c_updatedAt c = nowIso
           ∧ c_cardImageUri c = Some imageUri
           ∧ mkFormData (c_name c) (c_businessName c) (c_mobile c)
               (c_email c) (c_address c) (c_businessType c) = formData)
     ∧ (∀ cid, existingCustomerId = Some cid → cid ≠ ""%string →
          (list_find (λ c, c_id c = cid) (s_customers st) = None → st' = st)
          ∧ (∀ i c,
               list_find (λ c, c_id c = cid) (s_customers st) = Some (i, c) →
               ∃ c',
                 s_customers st' = <[i := c']> (s_customers st)
                 ∧ c_id c' = cid
                 ∧ c_createdAt c' = c_createdAt c
                 ∧ c_cardImageUri c' = Some imageUri
                 ∧ c_updatedAt c' = nowIso
                 ∧ mkFormData (c_name c') (c_businessName c') (c_mobile c')
                     (c_email c') (c_address c') (c_businessType c')
                   = formData))).
Proof.
  intros st'. subst st'. unfold exec at 1 2 3 4 5 6.
  rewrite ConfirmDetails_handleSave_run.
  destruct (truthy (trim (f_name formData))) eqn:Hname; unfold truthy in Hname;
    cbn [snd].
  - apply bool_decide_eq_true in Hname.
    assert (∀ id (s : Store N),
              s_transactions
                (exec (updateCustomer nowIso id
                         (formPatch formData (Some imageUri))) s)
              = s_transactions s
              ∧ s_payments
                  (exec (updateCustomer nowIso id
                           (formPatch formData (Some imageUri))) s)
                = s_payments s) as Hframe.
    { intros id s. unfold exec. rewrite updateCustomer_run.
      by destruct (list_find _ _) as [[j d]|]. }
    split_and!.
    + destruct (truthy _); [apply Hframe|done].
    + destruct (truthy _); [apply Hframe|done].
    + done.
    + intros _. split.
      * intros Hnone.
        assert (truthy (default ""%string existingCustomerId) = false) as ->.
        { unfold truthy. apply bool_decide_false. intros Hne. apply Hne.
          by destruct Hnone as [-> | ->]. }
        unfold exec. rewrite addCustomer_run. cbn.
        eexists. split_and!; try reflexivity. by destruct formData.
      * intros cid -> Hid.
        change (default ""%string (Some cid)) with cid.
        unfold truthy. rewrite bool_decide_true by done.
        unfold exec. rewrite updateCustomer_run. split.
        -- by intros ->.
        -- intros i c Hfind. rewrite Hfind. cbn.
           pose proof Hfind as (_ & Hcid & _)%list_find_Some.
           eexists. split_and!; try reflexivity; [done|by destruct formData].
  - apply bool_decide_eq_false in Hname.
    split_and!; [done|done|done|intros Hne; by destruct Hname].
Qed.

End forms.

Section forms_exact.
Context (num_mul : Z → Z → Z) (parseFloat : string → Z)
  (trim : string → string).
Implicit Types (st : Store Z).

Lemma handleAddPayment_run st (transaction : Transaction Z) paymentAmount
    paymentMethod newId nowIso :
  handleAddPayment parseFloat transaction paymentAmount paymentMethod newId
    nowIso st =
    if decide (parseFloat paymentAmount ≤ 0) then (InvalidAmount, st)
    else if decide (t_totalAmount transaction - t_amountPaid transaction
                    < parseFloat paymentAmount)
    then (ExceedsPending, st)
    else
      (PaymentAdded,
       exec (addPayment newId
               (mkPayment "" (t_id transaction) (t_customerId transaction)
                  (parseFloat paymentAmount) nowIso paymentMethod None)) st).
Proof.
  unfold handleAddPayment, exec. cbv zeta. znum.
  destruct (decide (parseFloat paymentAmount ≤ 0)) as [Hle|Hgt].
  - replace ((parseFloat paymentAmount =? 0)
             || (parseFloat paymentAmount <=? 0)) with true; [done|].
    symmetry. apply orb_true_iff. right. by apply Z.leb_le.
  - replace ((parseFloat paymentAmount =? 0)
             || (parseFloat paymentAmount <=? 0)) with false.
    2:{ symmetry. apply orb_false_iff. split; [apply Z.eqb_neq|apply Z.leb_gt];
        lia. }
    destruct (decide (_ < _)) as [Hex|Hok].
    + apply Z.ltb_lt in Hex. by rewrite Hex.
    + apply Z.ltb_nlt in Hok. rewrite Hok. cbv [mbind IO_bind mret IO_ret].
      by destruct (addPayment _ _ st).
Qed.


Lemma number_or_zero_exact (v : Z) : number_or_zero v = v.
Proof. unfold number_or_zero. znum. by destruct (Z.eqb_spec v 0) as [->|]. Qed.

Lemma calculateTotal_sum (products : list ProductForm) :
  calculateTotal num_mul parseFloat products
  = sum_of (λ p, num_mul (parseFloat (pf_quantity p))
                   (parseFloat (pf_unitPrice p))) products.
Proof.
  unfold calculateTotal.
  rewrite (foldl_add_sum_of
             (λ p, num_mul (number_or_zero (parseFloat (pf_quantity p)))
                     (number_or_zero (parseFloat (pf_unitPrice p))))).
  znum. rewrite Z.add_0_l.
  induction products as [|p products IH]; [done|].
  by rewrite !sum_of_cons, IH, !number_or_zero_exact.
Qed.


End forms_exact.

(** ** Accumulation in an insertion-ordered map *)

Section accumulate_facts.
Context {X V : Type} (key : X → string) (step : option V → X → V).

Lemma folded_snoc k (items : list X) x :
  folded key step k (items ++ [x])
  = if decide (key x = k) then Some (step (folded key step k items) x)
    else folded key step k items.
Proof.
  unfold folded. rewrite filter_app.
  destruct (decide (key x = k)) as [Heq|Hne].
  - rewrite filter_cons_True by done. by rewrite foldl_app.
  - rewrite filter_cons_False by done. by rewrite app_nil_r.
Qed.

Lemma folded_is_Some k (items : list X) :
  is_Some (folded key step k items) ↔ k ∈ key <$> items.
Proof.
  induction items as [|x items IH] using rev_ind.
  - split; [by intros [? ?]|by intros ?%elem_of_nil].
  - rewrite folded_snoc, fmap_app, elem_of_app. cbn.
    rewrite list_elem_of_singleton.
    destruct (decide (key x = k)) as [Heq|Hne].
    + split; [by right|by eexists].
    + rewrite IH. split; [by left|]. by intros [?|?].
Qed.

Lemma accumulate_snoc (items : list X) x :
  accumulate key step (items ++ [x])
  = JsMap.set (key x)
      (step (JsMap.get (key x) (accumulate key step items)) x)
      (accumulate key step items).
Proof. unfold accumulate. by rewrite foldl_app. Qed.

Lemma accumulate_accumulated (items : list X) :
  accumulated key step items (accumulate key step items).
Proof.
  induction items as [|x items IH] using rev_ind.
  { split.
    - done.
    - constructor.
    - intros ks1 k ks2 Hks. by destruct ks1. }
  rewrite accumulate_snoc. set (m := accumulate key step items) in *.
  assert (∀ k, k ∈ m.*1 ↔ k ∈ key <$> items) as Hkeys.
  { intros k. rewrite <- folded_is_Some, <- (acc_get _ _ _ _ IH).
    destruct (JsMap.get k m) eqn:Hget.
    - split; [by eexists|]. intros _.
      destruct (decide (k ∈ m.*1)) as [|Hnin]; [done|].
      apply JsMap_get_None in Hnin. congruence.
    - apply JsMap_get_None in Hget. split; [done|]. by intros [? ?]. }
  split.
  - intros k. rewrite JsMap_get_set, folded_snoc.
    destruct (decide (key x = k)) as [<-|Hne]; [|apply (acc_get _ _ _ _ IH)].
    by rewrite (acc_get _ _ _ _ IH).
  - rewrite JsMap_set_keys. destruct (decide (key x ∈ m.*1)) as [Hin|Hnin].
    + apply (acc_NoDup _ _ _ _ IH).
    + apply NoDup_app. split_and!.
      * apply (acc_NoDup _ _ _ _ IH).
      * intros k Hk ->%list_elem_of_singleton. done.
      * apply NoDup_singleton.
  - intros ks1 k ks2. rewrite JsMap_set_keys.
    destruct (decide (key x ∈ m.*1)) as [Hin|Hnin].
    + intros Hks. destruct (acc_order _ _ _ _ IH _ _ _ Hks)
        as (l1 & x0 & l2 & -> & Hx0 & Hl1).
      exists l1, x0, (l2 ++ [x]). rewrite <- app_assoc. done.
    + intros Hks. destruct ks2 as [|k2 ks2 _] using rev_ind.
      * apply app_inj_tail in Hks as [Hm Hk]. subst k.
        exists items, x, []. split_and!; [done|done|].
        intros x' Hx'. rewrite <- Hm. apply Hkeys.
        apply list_elem_of_fmap. by exists x'.
      * rewrite app_comm_cons, app_assoc in Hks.
        apply app_inj_tail in Hks as [Hm _].
        destruct (acc_order _ _ _ _ IH _ _ _ Hm)
          as (l1 & x0 & l2 & -> & Hx0 & Hl1).
        exists l1, x0, (l2 ++ [x]). rewrite <- app_assoc. done.
Qed.

Lemma accumulated_entry (items : list X) m k v :
  accumulated key step items m → (k, v) ∈ m →
  folded key step k items = Some v ∧ k ∈ key <$> items.
Proof.
  intros Hm Hin.
  apply JsMap_get_elem_of in Hin; [|apply (acc_NoDup _ _ _ _ Hm)].
  rewrite (acc_get _ _ _ _ Hm) in Hin. split; [done|].
  apply folded_is_Some. by eexists.
Qed.

Lemma accumulated_item (items : list X) m x :
  accumulated key step items m → x ∈ items →
  ∃ v, (key x, v) ∈ m ∧ folded key step (key x) items = Some v.
Proof.
  intros Hm Hin.
  assert (is_Some (folded key step (key x) items)) as [v Hv].
  { apply folded_is_Some, list_elem_of_fmap. by exists x. }
  exists v. split; [|done]. apply JsMap_get_Some_elem_of.
  by rewrite (acc_get _ _ _ _ Hm).
Qed.

End accumulate_facts.

Lemma foldl_nested {A B C} (f : A → C → A) (g : B → list C) (a : A)
    (l : list B) :
  foldl (λ a x, foldl f a (g x)) a l = foldl f a (l ≫= g).
Proof.
  revert a. induction l as [|x l IH]; intros a; [done|].
  cbn [foldl]. rewrite IH. cbn. by rewrite foldl_app.
Qed.

(** The folded value of a sum, and of a sum with a count. *)
Lemma foldl_sum_step {X} (f : X → Z) (l : list X) (o : option Z) :
  l ≠ [] →
  foldl (λ o x, Some (num_add (or_zero o) (f x))) o l
  = Some (or_zero o + sum_of f l).
Proof.
  revert o. induction l as [|x l IH]; intros o Hne; [done|].
  cbn [foldl]. destruct l as [|y l].
  - cbn. znum. f_equal. lia.
  - rewrite IH by done. rewrite (sum_of_cons f x). f_equal.
    assert (∀ v : Z, or_zero (Some v) = v) as Hz.
    { intros v. cbn. znum. by destruct (Z.eqb_spec v 0) as [->|]. }
    rewrite Hz. znum. lia.
Qed.

Lemma or_zero_exact (o : option Z) : or_zero o = default 0 o.
Proof.
  destruct o as [v|]; [|done]. cbn. znum.
  by destruct (Z.eqb_spec v 0) as [->|].
Qed.

(** ** The entries of the monthly rankings *)

Lemma foldl_sum_count {X} (f : X → Z) (l : list X) (o : option (Z * nat)) :
  l ≠ [] →
  foldl (λ o x,
           Some (let current := default (num_zero, 0%nat) o in
                 (num_add (fst current) (f x), (snd current + 1)%nat))) o l
  = Some ((default (0%Z, 0%nat) o).1 + sum_of f l,
          ((default (0%Z, 0%nat) o).2 + length l)%nat).
Proof.
  revert o. induction l as [|x l IH]; intros o Hne; [done|].
  cbn [foldl]. destruct l as [|y l].
  - cbn. znum. by rewrite Z.add_0_r.
  - rewrite IH by done. rewrite (sum_of_cons f x). cbn [default fst snd length].
    znum. unfold id. cbn [fst snd]. f_equal. f_equal; lia.
Qed.

Lemma foldl_snoc_omap {A B} (g : A → option B) (l : list A) (acc : list B) :
  foldl (λ acc e, match g e with Some y => acc ++ [y] | None => acc end) acc l
  = acc ++ omap g l.
Proof.
  revert acc. induction l as [|e l IH]; intros acc; cbn.
  - by rewrite app_nil_r.
  - rewrite IH. destruct (g e); [|done]. by rewrite <- app_assoc.
Qed.

Lemma Sorted_take {A} (R : relation A) (l : list A) (n : nat) :
  Sorted R l → Sorted R (take n l).
Proof.
  intros Hl. revert n. induction Hl as [|x l Hl IH Hx]; intros [|n]; cbn;
    try constructor; [apply IH|].
  destruct Hx as [|y l Hxy]; [rewrite take_nil; constructor|].
  destruct n; by constructor.
Qed.

Section rankings.
Context `{DateRuntime}.

Lemma unrankedRankings_omap {N} (customers : list Customer)
    (stats : list (string * (N * nat))) :
  unrankedRankings customers stats
  = omap (λ e, match snd <$> list_find (λ c, c_id c = e.1) customers with
               | Some c => Some (mkRankedCustomer c 0 e.2.1 e.2.2)
               | None => None
               end) stats.
Proof.
  unfold unrankedRankings.
  match goal with
  | |- foldl ?F [] _ = omap ?g _ =>
      enough (∀ acc, foldl F acc stats = acc ++ omap g stats) as Hgen
        by apply (Hgen [])
  end.
  induction stats as [|e stats IH]; intros acc; cbn.
  - by rewrite app_nil_r.
  - rewrite IH. destruct (_ <$> _); [|done]. by rewrite <- app_assoc.
Qed.

Lemma unrankedRankings_elem_of {N} (customers : list Customer)
    (stats : list (string * (N * nat))) (r : RankedCustomer N) :
  r ∈ unrankedRankings customers stats ↔
    ∃ e i, e ∈ stats
           ∧ list_find (λ c, c_id c = e.1) customers = Some (i, r_customer r)
           ∧ r_rank r = 0%nat ∧ r_totalAmount r = e.2.1
           ∧ r_transactionCount r = e.2.2.
Proof.
  rewrite unrankedRankings_omap, list_elem_of_omap. split.
  - intros (e & He & Hr). exists e.
    destruct (list_find _ customers) as [[i c]|] eqn:Hfind; [|done].
    exists i. cbn in Hr. by simplify_eq.
  - intros (e & i & He & Hfind & Hrank & Htotal & Hcount). exists e.
    split; [done|]. rewrite Hfind. cbn. destruct r. cbn in *. congruence.
Qed.

Lemma unrankedRankings_ids {N} (customers : list Customer)
    (stats : list (string * (N * nat))) :
  sublist ((λ r, c_id (r_customer r)) <$> unrankedRankings customers stats)
    stats.*1.
Proof.
  rewrite unrankedRankings_omap.
  induction stats as [|e stats IH]; [done|]. cbn.
  destruct (list_find _ customers) as [[i c]|] eqn:Hfind; cbn.
  - apply list_find_Some in Hfind as (_ & -> & _). by apply sublist_skip.
  - by apply sublist_cons.
Qed.

Lemma customerStats_accumulate {N} `{JsNumber N} (l : list (Transaction N)) :
  customerStats l
  = accumulate t_customerId
      (λ o t, let current := default (num_zero, 0%nat) o in
              (num_add (fst current) (t_totalAmount t),
               (snd current + 1)%nat)) l.
Proof. reflexivity. Qed.

Lemma customerStats_entry (l : list (Transaction Z)) k v :
  (k, v) ∈ customerStats l ↔
    filter (λ t, t_customerId t = k) l ≠ []
    ∧ v = (sum_of t_totalAmount (filter (λ t, t_customerId t = k) l),
           length (filter (λ t, t_customerId t = k) l)).
Proof.
  rewrite customerStats_accumulate.
  pose proof (accumulate_accumulated t_customerId
    (λ o t, let current := default (num_zero, 0%nat) o in
            (num_add (fst current) (t_totalAmount t),
             (snd current + 1)%nat)) l) as Hacc.
  trans (JsMap.get k (accumulate t_customerId
    (λ o t, let current := default (num_zero, 0%nat) o in
            (num_add (fst current) (t_totalAmount t),
             (snd current + 1)%nat)) l) = Some v).
  { split; [|apply JsMap_get_Some_elem_of].
    apply JsMap_get_elem_of, (acc_NoDup _ _ _ _ Hacc). }
  rewrite (acc_get _ _ _ _ Hacc). unfold folded.
  destruct (filter _ l) as [|t l'] eqn:Hl'.
  - cbn. split; [done|]. by intros [? _].
  - rewrite (foldl_sum_count t_totalAmount) by done. cbn [default fst snd].
    rewrite Z.add_0_l, Nat.add_0_l. split.
    + intros [= <-]. done.
    + intros [_ ->]. done.
Qed.

Lemma customerStats_NoDup {N} `{JsNumber N} (l : list (Transaction N)) :
  NoDup (customerStats l).*1.
Proof.
  rewrite customerStats_accumulate.
  eapply acc_NoDup, accumulate_accumulated.
Qed.

Lemma getMonthlyRankings_fields now customers
    (transactions : list (Transaction Z)) month year :
  let unranked :=
    unrankedRankings customers
      (customerStats
         (monthTransactions (default (getMonth now) month)
            (default (getFullYear now) year) transactions)) in
  let rankings := getMonthlyRankings now customers transactions month year in
  (∀ f : Customer → Z → nat → Prop,
     (∃ r, r ∈ rankings
           ∧ f (r_customer r) (r_totalAmount r) (r_transactionCount r))
     ↔ (∃ r, r ∈ unranked
             ∧ f (r_customer r) (r_totalAmount r) (r_transactionCount r)))
  ∧ (λ r, c_id (r_customer r)) <$> rankings
    ≡ₚ (λ r, c_id (r_customer r)) <$> unranked.
Proof.
  intros unranked rankings.
  pose proof (Array_sort_Permutation r_totalAmount unranked) as Hperm.
  unfold rankings, getMonthlyRankings. cbv zeta. fold unranked. split.
  - intros f. split.
    + intros (r & (i & r0 & -> & Hr0)%elem_of_lookup_imap & Hf).
      exists r0. split; [|done]. rewrite <- Hperm.
      by eapply list_elem_of_lookup_2.
    + intros (r0 & Hr0 & Hf). rewrite <- Hperm in Hr0.
      apply list_elem_of_lookup_1 in Hr0 as [i Hi].
      eexists. split; [by eapply elem_of_lookup_imap_2|done].
  - rewrite fmap_imap.
    rewrite (imap_ext _ (const (λ r, c_id (r_customer r)))) by done.
    by rewrite imap_const, Hperm.
Qed.

(** X12.  Every entry of [getMonthlyRankings] belongs to the first customer
    record with its id and carries the sum ([totalAmount]) and the number
    ([transactionCount], at least 1) of that customer's transactions dated
    in the target month; every customer with a record and a transaction in
    the month has an entry; no customer id is listed twice. *)
Theorem getMonthlyRankings_entries now (customers : list Customer)
    (transactions : list (Transaction Z)) (month year : option Z) :
  let monthTxs :=
    filter (in_calendar_month (default (getMonth now) month)
              (default (getFullYear now) year)) transactions in
  let of_customer cid := filter (λ t, t_customerId t = cid) monthTxs in
  let rankings := getMonthlyRankings now customers transactions month year in
  (∀ r, r ∈ rankings →
     snd <$> list_find (λ c, c_id c = c_id (r_customer r)) customers
       = Some (r_customer r)
     ∧ r_totalAmount r
       = sum_of t_totalAmount (of_customer (c_id (r_customer r)))
     ∧ r_transactionCount r = length (of_customer (c_id (r_customer r)))
     ∧ (1 ≤ r_transactionCount r)%nat)
  ∧ (∀ c t, c ∈ customers → t ∈ monthTxs → t_customerId t = c_id c →
       ∃ r, r ∈ rankings ∧ c_id (r_customer r) = c_id c)
  ∧ NoDup ((λ r, c_id (r_customer r)) <$> rankings).
Proof.
  intros monthTxs of_customer rankings.
  destruct (getMonthlyRankings_fields now customers transactions month year)
    as [Hfields Hids].
  rewrite monthTransactions_spec in Hfields, Hids.
  fold monthTxs in Hfields, Hids. fold rankings in Hfields, Hids.
  split_and!.
  - intros r Hr.
    destruct (proj1 (Hfields (λ c total count,
      c = r_customer r ∧ total = r_totalAmount r
      ∧ count = r_transactionCount r)))
      as (r0 & Hr0 & Hc & Ht & Hn); [by exists r|].
    apply unrankedRankings_elem_of in Hr0
      as ([k v] & i & He & Hfind & _ & Htotal & Hcount).
    apply customerStats_entry in He as [Hne ->]. cbn in *.
    rewrite Hc in Hfind.
    pose proof Hfind as (_ & Hid & _)%list_find_Some. rewrite Hid.
    fold (of_customer k) in *. rewrite Hfind. split_and!; [done|congruence..|].
    rewrite <- Hn, Hcount. destruct (of_customer k); [done|cbn; lia].
  - intros c t Hc Ht Hid.
    assert (is_Some (list_find (λ c', c_id c' = t_customerId t) customers))
      as [[i c'] Hfind].
    { apply list_find_elem_of with c; [done|]. by rewrite Hid. }
    apply (Hfields (λ c0 _ _, c_id c0 = c_id c)).
    exists (mkRankedCustomer c' 0
              (sum_of t_totalAmount (of_customer (t_customerId t)))
              (length (of_customer (t_customerId t)))).
    split; [|cbn; apply list_find_Some in Hfind as (_ & -> & _); done].
    apply unrankedRankings_elem_of.
    exists (t_customerId t, (sum_of t_totalAmount (of_customer (t_customerId t)),
                             length (of_customer (t_customerId t)))), i.
    split_and!; try done.
    apply customerStats_entry. split; [|done].
    intros Hnil. assert (t ∈ of_customer (t_customerId t)) as Hin.
    { by apply list_elem_of_filter. }
    unfold of_customer in Hin. rewrite Hnil in Hin. by apply elem_of_nil in Hin.
  - rewrite Hids. eapply sublist_NoDup; [|apply unrankedRankings_ids].
    apply customerStats_NoDup.
Qed.

End rankings.

(** ** The top products *)

Section top_by_key.
Context {A : Type} (key : A → Z).

Lemma Array_sort_StronglySorted (l : list A) :
  StronglySorted (λ a b, key a >= key b)
    (Array_sort (λ a b, num_sub (key b) (key a)) l).
Proof.
  apply Sorted_StronglySorted; [|apply Array_sort_Sorted].
  intros a b c. cbn. lia.
Qed.

Lemma take_sort_top_by (l : list A) (n : nat) :
  top_by key n l (take n (Array_sort (λ a b, num_sub (key b) (key a)) l)).
Proof.
  pose proof (Array_sort_StronglySorted l) as Hsorted.
  pose proof (Array_sort_Permutation key l) as Hperm.
  set (sorted := Array_sort _ l) in *.
  rewrite <- (take_drop n sorted) in Hsorted.
  apply StronglySorted_app in Hsorted as (Hle & Htake & Hdrop).
  split.
  - rewrite length_take. lia.
  - done.
  - rewrite <- Hperm. apply sublist_submseteq, sublist_take.
  - intros x Hx. rewrite <- Hperm, <- (take_drop n sorted) in Hx.
    apply elem_of_app in Hx as [Hx|Hx]; [by left|]. right. split.
    + rewrite length_take. destruct (decide (n ≤ length sorted)%nat); [lia|].
      rewrite drop_ge in Hx by lia. by apply elem_of_nil in Hx.
    + intros y Hy. by apply Hle.
Qed.

End top_by_key.

Lemma NoDup_submseteq_inv {A} (l k : list A) : NoDup k → l ⊆+ k → NoDup l.
Proof.
  intros Hk [k' Hperm]%submseteq_Permutation. rewrite Hperm in Hk.
  by apply NoDup_app in Hk as [? _].
Qed.

Section accumulate_entries.
Context {X : Type} (key : X → string).

Lemma accumulate_elem_of {V} (step : option V → X → V) (items : list X) k v :
  (k, v) ∈ accumulate key step items ↔ folded key step k items = Some v.
Proof.
  pose proof (accumulate_accumulated key step items) as Hacc.
  rewrite <- (acc_get _ _ _ _ Hacc). split; [|apply JsMap_get_Some_elem_of].
  apply JsMap_get_elem_of, (acc_NoDup _ _ _ _ Hacc).
Qed.

Lemma accumulate_keys_NoDup {V} (step : option V → X → V) (items : list X) :
  NoDup (accumulate key step items).*1.
Proof. eapply acc_NoDup, accumulate_accumulated. Qed.

(** A map of sums. *)
Lemma accumulate_sum_elem_of (f : X → Z) (items : list X) k v :
  (k, v) ∈ accumulate key (λ o x, num_add (or_zero o) (f x)) items ↔
    filter (λ x, key x = k) items ≠ []
    ∧ v = sum_of f (filter (λ x, key x = k) items).
Proof.
  rewrite accumulate_elem_of. unfold folded.
  destruct (filter _ items) as [|x l'] eqn:Hl'.
  - cbn. split; [done|]. by intros [? _].
  - rewrite (foldl_sum_step f) by done. cbn [or_zero]. znum. split.
    + by intros [= <-].
    + by intros [_ ->].
Qed.

Lemma foldl_sum_pair (f g : X → Z) (l : list X) (o : option (Z * Z)) :
  l ≠ [] →
  foldl (λ o x,
           Some (let current := default (num_zero, num_zero) o in
                 (num_add current.1 (f x), num_add current.2 (g x)))) o l
  = Some ((default (0, 0) o).1 + sum_of f l,
          (default (0, 0) o).2 + sum_of g l).
Proof.
  revert o. induction l as [|x l IH]; intros o Hne; [done|].
  cbn [foldl]. destruct l as [|y l].
  - cbn. znum. by rewrite !Z.add_0_r.
  - rewrite IH by done. rewrite (sum_of_cons f x), (sum_of_cons g x).
    cbn [default fst snd]. znum. unfold id. cbn [fst snd].
    f_equal. f_equal; lia.
Qed.

(** A map of pairs of sums. *)
Lemma accumulate_sum_pair_elem_of (f g : X → Z) (items : list X) k v :
  (k, v) ∈ accumulate key
             (λ o x, let current := default (num_zero, num_zero) o in
                     (num_add current.1 (f x), num_add current.2 (g x)))
             items ↔
    filter (λ x, key x = k) items ≠ []
    ∧ v = (sum_of f (filter (λ x, key x = k) items),
           sum_of g (filter (λ x, key x = k) items)).
Proof.
  rewrite accumulate_elem_of. unfold folded.
  destruct (filter _ items) as [|x l'] eqn:Hl'.
  - cbn. split; [done|]. by intros [? _].
  - rewrite (foldl_sum_pair f g) by done. cbn [default fst snd].
    rewrite !Z.add_0_l. split.
    + by intros [= <-].
    + by intros [_ ->].
Qed.

End accumulate_entries.

Section products.
Context `{DateRuntime}.

Lemma Array_slice_to_take {A} (l : list A) (end_ : Z) :
  0 ≤ end_ → Array_slice_to l end_ = take (Z.to_nat end_) l.
Proof. intros Hend. unfold Array_slice_to. by rewrite decide_False by lia. Qed.

Lemma productCounts_accumulate {N} `{JsNumber N} (l : list (Transaction N)) :
  productCounts l
  = accumulate p_name (λ o p, num_add (or_zero o) (p_quantity p))
      (l ≫= t_products).
Proof.
  unfold productCounts, accumulate. by rewrite <- (foldl_nested _ t_products).
Qed.

Lemma productStats_accumulate {N} `{JsNumber N} (l : list (Transaction N)) :
  productStats l
  = accumulate p_name
      (λ o p, let current := default (num_zero, num_zero) o in
              (num_add current.1 (p_quantity p),
               num_add current.2 (p_total p)))
      (l ≫= t_products).
Proof.
  unfold productStats, accumulate. by rewrite <- (foldl_nested _ t_products).
Qed.

Lemma statusFilter_spec {N} (t : Transaction N) startDate endDate :
  statusFilter startDate endDate t ↔ not_outside startDate endDate t.
Proof.
  unfold statusFilter, not_outside, date_ltb. cbv zeta.
  destruct (Date_parse (t_date t)) as [tv|],
    startDate as [[s|]|], endDate as [[e|]|]; cbn;
    repeat case_bool_decide; cbn; split; (done || lia || intros [? ?]; lia).
Qed.

(** X13.  The [topProducts] of [getCustomerStats] are at most five, sorted
    by descending quantity, one per product name; an entry carries the
    summed quantity of the line items with its name on the customer's
    transactions; and a product the customer bought is left out only when
    five are listed, none of them with a smaller quantity. *)
Theorem getCustomerStats_topProducts (customerId : string)
    (transactions : list (Transaction Z)) :
  let items :=
    filter (λ t, t_customerId t = customerId) transactions ≫= t_products in
  let bought name := filter (λ p, p_name p = name) items in
  let top := cs_topProducts (getCustomerStats customerId transactions) in
  (length top ≤ 5)%nat
  ∧ StronglySorted (λ a b, pq_quantity a >= pq_quantity b) top
  ∧ NoDup (pq_name <$> top)
  ∧ (∀ e, e ∈ top →
       bought (pq_name e) ≠ []
       ∧ pq_quantity e = sum_of p_quantity (bought (pq_name e)))
  ∧ (∀ p, p ∈ items →
       (∃ e, e ∈ top ∧ pq_name e = p_name p)
       ∨ (length top = 5%nat
          ∧ ∀ e, e ∈ top →
              pq_quantity e >= sum_of p_quantity (bought (p_name p)))).
Proof.
  intros items bought top.
  set (all := (λ e : string * Z, mkProductQuantity e.1 e.2)
              <$> productCounts
                    (filter (λ t, t_customerId t = customerId) transactions)).
  assert (top_by pq_quantity 5 all top) as Htop.
  { apply (take_sort_top_by pq_quantity all 5). }
  assert (∀ e, e ∈ all ↔
            bought (pq_name e) ≠ []
            ∧ pq_quantity e = sum_of p_quantity (bought (pq_name e)))
    as Hall.
  { intros e. unfold all. rewrite list_elem_of_fmap, productCounts_accumulate.
    fold items. split.
    - intros ([k v] & -> & Hkv). by apply accumulate_sum_elem_of in Hkv.
    - intros Hkv. exists (pq_name e, pq_quantity e). split; [by destruct e|].
      by apply accumulate_sum_elem_of. }
  split_and!.
  - apply (top_length _ _ _ _ Htop).
  - apply (top_sorted _ _ _ _ Htop).
  - eapply NoDup_submseteq_inv;
      [|apply fmap_submseteq, (top_drawn _ _ _ _ Htop)].
    unfold all. rewrite <- list_fmap_compose, productCounts_accumulate.
    apply accumulate_keys_NoDup.
  - intros e He. apply Hall. eapply elem_of_submseteq; [done|].
    apply (top_drawn _ _ _ _ Htop).
  - intros p Hp.
    set (e := mkProductQuantity (p_name p)
                (sum_of p_quantity (bought (p_name p)))).
    assert (e ∈ all) as He.
    { apply Hall. split; [|done]. cbn. intros Hnil.
      assert (p ∈ bought (p_name p)) as Hin by by apply list_elem_of_filter.
      rewrite Hnil in Hin. by apply elem_of_nil in Hin. }
    destruct (top_largest _ _ _ _ Htop e He) as [Hin|[Hlen Hle]].
    + left. by exists e.
    + right. done.
Qed.

(** X14.  For a limit that is not negative, [getTopProducts] returns at most
    [limit] entries, sorted by descending revenue, one per product name; an
    entry carries the summed quantity and the summed line total of the line
    items with its name on the transactions not outside the supplied bounds;
    and a product sold is left out only when [limit] are listed, none of
    them with a smaller revenue. *)
Theorem getTopProducts_top (transactions : list (Transaction Z)) (limit : Z)
    (startDate endDate : option JsDate) (Hlimit : 0 ≤ limit) :
  let items :=
    filter (not_outside startDate endDate) transactions ≫= t_products in
  let sold name := filter (λ p, p_name p = name) items in
  let top := getTopProducts transactions limit startDate endDate in
  (length top ≤ Z.to_nat limit)%nat
  ∧ StronglySorted (λ a b, pr_revenue a >= pr_revenue b) top
  ∧ NoDup (pr_name <$> top)
  ∧ (∀ e, e ∈ top →
       sold (pr_name e) ≠ []
       ∧ pr_quantity e = sum_of p_quantity (sold (pr_name e))
       ∧ pr_revenue e = sum_of p_total (sold (pr_name e)))
  ∧ (∀ p, p ∈ items →
       (∃ e, e ∈ top ∧ pr_name e = p_name p)
       ∨ (length top = Z.to_nat limit
          ∧ ∀ e, e ∈ top → pr_revenue e >= sum_of p_total (sold (p_name p)))).
Proof.
  intros items sold top.
  set (all := (λ e : string * (Z * Z), mkProductRevenue e.1 e.2.1 e.2.2)
              <$> productStats
                    (filter (λ t, statusFilter startDate endDate t)
                       transactions)).
  assert (top_by pr_revenue (Z.to_nat limit) all top) as Htop.
  { unfold top, getTopProducts. cbv zeta. rewrite Array_slice_to_take by done.
    apply (take_sort_top_by pr_revenue all). }
  assert (filter (λ t, statusFilter startDate endDate t) transactions ≫=
            t_products = items) as Hitems.
  { unfold items. f_equal. apply list_filter_iff. intros t.
    apply statusFilter_spec. }
  assert (∀ e, e ∈ all ↔
            sold (pr_name e) ≠ []
            ∧ pr_quantity e = sum_of p_quantity (sold (pr_name e))
            ∧ pr_revenue e = sum_of p_total (sold (pr_name e)))
    as Hall.
  { intros e. unfold all.
    rewrite list_elem_of_fmap, productStats_accumulate, Hitems. split.
    - intros ([k [q r]] & -> & Hkv).
      apply accumulate_sum_pair_elem_of in Hkv as [Hne [= -> ->]]. done.
    - intros (Hne & Hq & Hr).
      exists (pr_name e, (pr_quantity e, pr_revenue e)).
      split; [by destruct e|].
      apply accumulate_sum_pair_elem_of. split; [done|]. by rewrite Hq, Hr. }
  split_and!.
  - apply (top_length _ _ _ _ Htop).
  - apply (top_sorted _ _ _ _ Htop).
  - eapply NoDup_submseteq_inv;
      [|apply fmap_submseteq, (top_drawn _ _ _ _ Htop)].
    unfold all. rewrite <- list_fmap_compose, productStats_accumulate.
    apply accumulate_keys_NoDup.
  - intros e He. apply Hall. eapply elem_of_submseteq; [done|].
    apply (top_drawn _ _ _ _ Htop).
  - intros p Hp.
    set (e := mkProductRevenue (p_name p)
                (sum_of p_quantity (sold (p_name p)))
                (sum_of p_total (sold (p_name p)))).
    assert (e ∈ all) as He.
    { apply Hall. split; [|done]. cbn. intros Hnil.
      assert (p ∈ sold (p_name p)) as Hin by by apply list_elem_of_filter.
      rewrite Hnil in Hin. by apply elem_of_nil in Hin. }
    destruct (top_largest _ _ _ _ Htop e He) as [Hin|[Hlen Hle]].
    + left. by exists e.
    + right. done.
Qed.

End products.

(** ** Totals across the engine, the report and the export *)

Section totals.
Context `{DateRuntime}.

(** X15.  With a date range, [getPaymentStatusData] adds up the transactions
    that are not outside the supplied bounds, each bound on its own and a
    transaction whose date does not parse always included: [collected] is
    what was paid on them, [pending] what is still due, and the two add up
    to their total amount. *)
Theorem getPaymentStatusData_range (transactions : list (Transaction Z))
    (startDate endDate : option JsDate) :
  let counted := filter (not_outside startDate endDate) transactions in
  let status := getPaymentStatusData transactions startDate endDate in
  collected status = sum_of t_amountPaid counted
  ∧ psd_pending status
    = sum_of (λ t, t_totalAmount t - t_amountPaid t) counted
  ∧ collected status + psd_pending status = sum_of t_totalAmount counted.
Proof.
  intros counted status.
  assert (filter (λ t, statusFilter startDate endDate t) transactions
          = counted) as Hcounted.
  { apply list_filter_iff. intros t. apply statusFilter_spec. }
  unfold status, getPaymentStatusData. cbv zeta. rewrite Hcounted.
  cbn [collected psd_pending].
  rewrite (foldl_add_sum_of t_amountPaid).
  rewrite (foldl_add_sum_of (λ t, num_sub (t_totalAmount t) (t_amountPaid t))).
  change num_zero with 0.
  change (λ t : Transaction Z, num_sub (t_totalAmount t) (t_amountPaid t))
    with (λ t : Transaction Z, t_totalAmount t - t_amountPaid t).
  rewrite sum_of_sub. split_and!; lia.
Qed.

(** X16.  The three status counts of the report add up to its number of
    transactions, whatever the representation of amounts. *)
Theorem generateReportSummary_counts {N} `{JsNumber N}
    (customers : list Customer) (transactions : list (Transaction N)) :
  let report := generateReportSummary customers transactions in
  (rs_paid report + rs_partial report + rs_pending report)%nat
  = rs_totalTransactions report.
Proof.
  cbn. induction transactions as [|t l IH]; [done|].
  rewrite !filter_cons.
  destruct (t_status t); repeat case_decide; try done; cbn [length] in *; lia.
Qed.

(** Grouping by a key that takes each of its values on exactly one group
    loses nothing. *)
Lemma sum_of_groups {C T} (f : T → Z) (ckey : C → string) (tkey : T → string)
    (cs : list C) (l : list T) :
  NoDup (ckey <$> cs) →
  (∀ t, t ∈ l → tkey t ∈ ckey <$> cs) →
  sum_of (λ c, sum_of f (filter (λ t, tkey t = ckey c) l)) cs = sum_of f l.
Proof.
  intros Hnd. revert l. induction cs as [|c cs IH]; intros l Hl.
  - destruct l as [|t l]; [done|].
    specialize (Hl t (list_elem_of_here _ _)). by apply elem_of_nil in Hl.
  - rewrite fmap_cons in Hnd. apply NoDup_cons in Hnd as [Hc Hnd].
    rewrite sum_of_cons.
    assert (sum_of f l
            = sum_of f (filter (λ t, tkey t = ckey c) l)
              + sum_of f (filter (λ t, tkey t ≠ ckey c) l)) as ->.
    { clear. induction l as [|t l IHl]; [done|].
      rewrite !filter_cons. destruct (decide (tkey t = ckey c)).
      - rewrite decide_False by naive_solver. rewrite !sum_of_cons. lia.
      - rewrite decide_True by done. rewrite !sum_of_cons. lia. }
    f_equal.
    rewrite <- (IH Hnd (filter (λ t, tkey t ≠ ckey c) l)).
    + clear -Hc. induction cs as [|c' cs IHcs]; [done|].
      rewrite fmap_cons, not_elem_of_cons in Hc. destruct Hc as [Hne Hc].
      rewrite !sum_of_cons, IHcs by done. f_equal. f_equal.
      rewrite list_filter_filter. apply list_filter_iff. intros t.
      split; [|tauto]. intros ->. split; [done|]. congruence.
    + intros t [Hne Ht]%list_elem_of_filter.
      specialize (Hl t Ht). rewrite fmap_cons in Hl.
      by apply elem_of_cons in Hl as [?|?].
Qed.

(** X17.  The customers export has one row per customer, in order, with the
    totals [getCustomerStats] reports for that customer; when customer ids
    are distinct and every transaction belongs to a customer of the list,
    the rows add up to the totals of the report. *)
Theorem exportCustomersRows_totals (customers : list Customer)
    (transactions : list (Transaction Z))
    (Hids : NoDup (c_id <$> customers))
    (Hrefs : ∀ t, t ∈ transactions → t_customerId t ∈ c_id <$> customers) :
  let rows := exportCustomersRows customers transactions in
  let report := generateReportSummary customers transactions in
  row_customer <$> rows = customers
  ∧ (∀ row, row ∈ rows →
       let stats :=
         getCustomerStats (c_id (row_customer row)) transactions in
       row_totalPurchased row = cs_totalPurchased stats
       ∧ row_amountPaid row = cs_amountPaid stats
       ∧ row_amountPending row = cs_amountPending stats)
  ∧ sum_of row_totalPurchased rows = rs_totalRevenue report
  ∧ sum_of row_amountPaid rows = rs_totalCollected report
  ∧ sum_of row_amountPending rows = rs_pendingCollection report.
Proof.
  intros rows report.
  assert (∀ g : CustomerRow Z → Z,
            sum_of g rows
            = sum_of (λ c, g (mkCustomerRow c
                  (sum_of t_totalAmount
                     (filter (λ t, t_customerId t = c_id c) transactions))
                  (sum_of t_amountPaid
                     (filter (λ t, t_customerId t = c_id c) transactions))
                  (sum_of t_totalAmount
                     (filter (λ t, t_customerId t = c_id c) transactions)
                   - sum_of t_amountPaid
                       (filter (λ t, t_customerId t = c_id c) transactions))))
                customers) as Hsum.
  { intros g. unfold rows, exportCustomersRows. cbv zeta.
    clear. induction customers as [|c cs IH]; [done|].
    rewrite fmap_cons, !sum_of_cons. rewrite !foldl_add_sum_of.
    f_equal. apply IH. }
  split_and!.
  - unfold rows, exportCustomersRows. rewrite <- list_fmap_compose.
    apply list_fmap_id.
  - intros row (c & -> & Hc)%list_elem_of_fmap. done.
  - rewrite Hsum. cbn [row_totalPurchased].
    rewrite (sum_of_groups t_totalAmount c_id t_customerId) by done.
    cbn. by rewrite foldl_add_sum_of.
  - rewrite Hsum. cbn [row_amountPaid].
    rewrite (sum_of_groups t_amountPaid c_id t_customerId) by done.
    cbn. by rewrite foldl_add_sum_of.
  - rewrite Hsum. cbn [row_amountPending].
    rewrite sum_of_sub.
    rewrite (sum_of_groups t_totalAmount c_id t_customerId) by done.
    rewrite (sum_of_groups t_amountPaid c_id t_customerId) by done.
    cbn. by rewrite !foldl_add_sum_of.
Qed.

End totals.

(** ** The transactions export *)

Lemma sum_of_fmap {A B} (g : B → Z) (f : A → B) (l : list A) :
  sum_of g (f <$> l) = sum_of (λ x, g (f x)) l.
Proof.
  induction l as [|x l IH]; [done|]. by rewrite fmap_cons, !sum_of_cons, IH.
Qed.

(** X21.  The transactions export has one row per transaction, in order:
    the row shows the transaction's amounts and status, what is still due
    on it and the number of units sold; its customer column reads Unknown
    exactly when no customer has the transaction's [customerId] or the first
    one that has carries an empty name (or that very name).  The amount
    columns add up to the totals of the report. *)
Theorem exportTransactionsRows_totals (transactions : list (Transaction Z))
    (customers : list Customer) :
  let rows := exportTransactionsRows transactions customers in
  let report := generateReportSummary customers transactions in
  length rows = rs_totalTransactions report
  ∧ sum_of trow_totalAmount rows = rs_totalRevenue report
  ∧ sum_of trow_amountPaid rows = rs_totalCollected report
  ∧ sum_of trow_pending rows = rs_pendingCollection report
  ∧ ∀ i tx, transactions !! i = Some tx →
      ∃ row,
        rows !! i = Some row
        ∧ trow_totalAmount row = t_totalAmount tx
        ∧ trow_amountPaid row = t_amountPaid tx
        ∧ trow_pending row = t_totalAmount tx - t_amountPaid tx
        ∧ trow_status row = t_status tx
        ∧ trow_totalQty row = sum_of p_quantity (t_products tx)
        ∧ (trow_customerName row = "Unknown"%string ↔
             match list_find (λ c, c_id c = t_customerId tx) customers with
             | Some (_, c) =>
                 c_name c = ""%string ∨ c_name c = "Unknown"%string
             | None => True
             end).
Proof.
  intros rows report. unfold rows, exportTransactionsRows. split_and!.
  - by rewrite length_fmap.
  - rewrite sum_of_fmap. cbn. by rewrite foldl_add_sum_of.
  - rewrite sum_of_fmap. cbn. by rewrite foldl_add_sum_of.
  - rewrite sum_of_fmap. cbn. rewrite !foldl_add_sum_of.
    rewrite (sum_of_sub t_totalAmount t_amountPaid). znum. lia.
  - intros i tx Htx. rewrite list_lookup_fmap, Htx. cbn.
    eexists. split; [done|]. cbn. split_and!; try done.
    + rewrite foldl_add_sum_of. znum. lia.
    + destruct (list_find _ customers) as [[j c]|]; cbn; [|done].
      unfold truthy. case_bool_decide as Hname; cbn.
      * split; [by right|]. by intros [?|?].
      * split; [by left|done].
Qed.

(** ** The chart against the dashboard *)

Section chart_and_dashboard.
Context `{DateRuntime}.

(** X18.  When the first day of the current month, as [new Date(year, month,
    1)] builds it, reads back with the month and year of the clock, the last
    entry of the revenue chart drawn without a complete date range is the
    [thisMonthRevenue] of the dashboard. *)
Theorem getRevenueChartData_last_thisMonth {N} `{JsNumber N} now
    (customers : list Customer) (transactions : list (Transaction N))
    (months : Z) (startDate endDate : option JsDate)
    (Hmonths : 0 < months)
    (Hrange : startDate = None ∨ endDate = None)
    (Hmonth :
       getMonth (Date_ymd (getFullYear now) (getMonth now) 1) = getMonth now)
    (Hyear :
       getFullYear (Date_ymd (getFullYear now) (getMonth now) 1)
       = getFullYear now) :
  last (data (getRevenueChartData now transactions months startDate endDate))
  = Some (thisMonthRevenue (getDashboardStats now customers transactions)).
Proof.
  unfold getRevenueChartData. rewrite chartLoop_unfold. cbn [data app].
  destruct (Z.to_nat months) as [|k] eqn:Hk; [lia|].
  cbn [seq]. rewrite reverse_cons, fmap_app, list_fmap_singleton, last_snoc.
  change (Z.of_nat 0) with 0. rewrite Z.sub_0_r.
  cbn [getDashboardStats thisMonthRevenue]. do 2 f_equal.
  unfold monthTransactions. apply list_filter_iff. intros t.
  unfold chartFilter. cbv zeta. rewrite Hmonth, Hyear.
  by destruct Hrange as [-> | ->]; [|destruct startDate].
Qed.

End chart_and_dashboard.

(** ** Payment reminders *)

Lemma length_omap_le {A B} (g : A → option B) (l : list A) :
  (length (omap g l) ≤ length l)%nat.
Proof.
  induction l as [|x l IH]; [done|]. cbn. destruct (g x); cbn; lia.
Qed.

Section reminders.
Context `{DateRuntime}.

Lemma checkAndNotifyPendingPayments_omap {N} `{JsNumber N} today
    (transactions : list (Transaction N)) (customers : list Customer) :
  checkAndNotifyPendingPayments true today transactions customers
  = omap (λ tx,
            match snd <$> list_find (λ c, c_id c = t_customerId tx)
                            customers with
            | Some customer_ =>
                Some (mkReminder (c_name customer_)
                        (num_sub (t_totalAmount tx) (t_amountPaid tx))
                        ((λ d, d - 30)
                         <$> ((λ txTime,
                                 (today - txTime) / (1000 * 60 * 60 * 24))
                              <$> Date_parse (t_date tx))))
            | None => None
            end)
      (take 3
         (filter (λ t, num_ltb (t_amountPaid t) (t_totalAmount t)
                       && date_ltb (Date_parse (t_date t)) (Some today))
            transactions)).
Proof.
  unfold checkAndNotifyPendingPayments. cbn [negb]. cbv zeta.
  change (Array_slice_to ?l 3) with (take 3 l).
  match goal with
  | |- foldl ?F [] ?l = omap ?g _ =>
      enough (∀ acc, foldl F acc l = acc ++ omap g l) as Hgen
        by apply (Hgen []);
      generalize l
  end.
  intros l. induction l as [|tx l IH]; intros acc; cbn.
  - by rewrite app_nil_r.
  - rewrite IH. destruct (_ <$> list_find _ customers); [|done].
    by rewrite <- app_assoc.
Qed.

(** X19.  [checkAndNotifyPendingPayments] schedules nothing when reminders
    are switched off, and never more than three.  Each reminder is for a
    transaction with a positive amount still due and a date before the
    clock, whose customer has a record: it names that customer and that
    amount, and it is worded as overdue exactly when at least 31 whole days
    have passed since the date of the transaction. *)
Theorem checkAndNotifyPendingPayments_reminders (enabled : bool) (today : Z)
    (transactions : list (Transaction Z)) (customers : list Customer) :
  let reminders :=
    checkAndNotifyPendingPayments enabled today transactions customers in
  (enabled = false → reminders = [])
  ∧ (length reminders ≤ 3)%nat
  ∧ ∀ r, r ∈ reminders →
      ∃ tx c txTime,
        tx ∈ transactions
        ∧ snd <$> list_find (λ c, c_id c = t_customerId tx) customers = Some c
        ∧ Date_parse (t_date tx) = Some txTime
        ∧ txTime < today
        ∧ rem_customerName r = c_name c
        ∧ rem_amount r = t_totalAmount tx - t_amountPaid tx
        ∧ 0 < rem_amount r
        ∧ rem_daysOverdue r = Some ((today - txTime) / 86400000 - 30)
        ∧ (rem_overdue r = true ↔ 31 * 86400000 ≤ today - txTime).
Proof.
  intros reminders. split; [by intros ->|].
  destruct enabled; [|split; [cbn; lia|by intros r ?%elem_of_nil]].
  unfold reminders. rewrite checkAndNotifyPendingPayments_omap. split.
  - etrans; [apply length_omap_le|]. rewrite length_take. lia.
  - intros r (tx & Htx & Hr)%list_elem_of_omap.
    apply elem_of_take in Htx as (i & Htx%list_elem_of_lookup_2 & _).
    apply list_elem_of_filter in Htx as [Hdue Htx].
    apply andb_True in Hdue as [Hamount Hdate].
    destruct (snd <$> list_find _ customers) as [c|] eqn:Hc; [|done].
    unfold date_ltb in Hdate.
    destruct (Date_parse (t_date tx)) as [txTime|] eqn:Hparse; [|done].
    apply bool_decide_spec in Hdate.
    injection Hr as <-. exists tx, c, txTime.
    change (num_ltb (t_amountPaid tx) (t_totalAmount tx))
      with (t_amountPaid tx <? t_totalAmount tx) in Hamount.
    apply Is_true_eq_true, Z.ltb_lt in Hamount.
    unfold rem_overdue.
    cbn [rem_customerName rem_amount rem_daysOverdue fmap option_fmap
         option_map].
    change (1000 * 60 * 60 * 24) with 86400000. znum.
    split_and!; try done; try lia.
    rewrite bool_decide_eq_true.
    pose proof (Z.div_le_lower_bound (today - txTime) 86400000 31).
    pose proof (Z.div_lt_upper_bound (today - txTime) 86400000 31).
    split; lia.
Qed.

End reminders.

(** ** The dashboard against the rankings *)

Section sort_head.
Context {A : Type} (key : A → Z).

Lemma sort_insert_largest x (s : list A) :
  (∀ y, y ∈ s → key y ≤ key x) →
  sort_insert (λ a b, num_sub (key b) (key a)) x s = x :: s.
Proof.
  intros Hs. destruct s as [|y s]; [done|]. cbn [sort_insert].
  specialize (Hs y (list_elem_of_here _ _)).
  change (num_ltb num_zero (num_sub (key y) (key x)))
    with (0 <? key y - key x).
  destruct (Z.ltb_spec 0 (key y - key x)); [lia|done].
Qed.

(** The sort is stable: the first of the items with the largest key comes
    out first. *)
Lemma Array_sort_head (l1 : list A) (x : A) (l2 : list A) :
  (∀ y, y ∈ l1 → key y < key x) →
  (∀ y, y ∈ l2 → key y ≤ key x) →
  ∃ s, Array_sort (λ a b, num_sub (key b) (key a)) (l1 ++ x :: l2) = x :: s.
Proof.
  intros Hl1 Hl2. induction l1 as [|a l1 IH]; cbn [app Array_sort foldr].
  - eexists. apply sort_insert_largest. intros y Hy. apply Hl2.
    by rewrite <- (Array_sort_Permutation key l2).
  - destruct IH as [s Hs].
    { intros y Hy. apply Hl1. by apply elem_of_cons; right. }
    unfold Array_sort in Hs. rewrite Hs. cbn [sort_insert].
    specialize (Hl1 a (list_elem_of_here _ _)).
    change (num_ltb num_zero (num_sub (key x) (key a)))
      with (0 <? key x - key a).
    destruct (Z.ltb_spec 0 (key x - key a)); [by eexists|lia].
Qed.

End sort_head.

Lemma accumulate_keys {X V W} (key : X → string) (step : option V → X → V)
    (step' : option W → X → W) (items : list X) :
  (accumulate key step items).*1 = (accumulate key step' items).*1.
Proof.
  induction items as [|x items IH] using rev_ind; [done|].
  by rewrite !accumulate_snoc, !JsMap_set_keys, IH.
Qed.

Section dashboard_and_rankings.
Context `{DateRuntime}.

Lemma customerTotals_accumulate {N} `{JsNumber N} (l : list (Transaction N)) :
  customerTotals l
  = accumulate t_customerId (λ o t, num_add (or_zero o) (t_totalAmount t)) l.
Proof. reflexivity. Qed.

Lemma customerTotals_entry (l : list (Transaction Z)) k a :
  (k, a) ∈ customerTotals l ↔
    filter (λ t, t_customerId t = k) l ≠ []
    ∧ a = sum_of t_totalAmount (filter (λ t, t_customerId t = k) l).
Proof.
  rewrite customerTotals_accumulate.
  apply (accumulate_sum_elem_of t_customerId t_totalAmount).
Qed.

Lemma customerStats_keys (l : list (Transaction Z)) :
  (customerStats l).*1 = (customerTotals l).*1.
Proof.
  rewrite customerStats_accumulate, customerTotals_accumulate.
  apply accumulate_keys.
Qed.

(** X20.  No entry of this month's rankings has a larger total than the
    [amount] of the dashboard's top customer; and when that amount is
    positive and the top customer has a record, the customer ranked first is
    that customer, with that amount. *)
Theorem getDashboardStats_topCustomer_ranked_first now
    (customers : list Customer) (transactions : list (Transaction Z)) :
  let top := topCustomer (getDashboardStats now customers transactions) in
  let rankings := getMonthlyRankings now customers transactions None None in
  (∀ r, r ∈ rankings → r_totalAmount r ≤ amount top)
  ∧ ∀ c, 0 < amount top → customer top = Some c →
      ∃ r, head rankings = Some r
           ∧ r_customer r = c ∧ r_rank r = 1%nat
           ∧ r_totalAmount r = amount top.
Proof.
  intros top rankings.
  set (monthTxs := monthTransactions (getMonth now) (getFullYear now)
                     transactions).
  assert (∀ k v, (k, v) ∈ customerStats monthTxs →
            (k, v.1) ∈ customerTotals monthTxs) as Hstats.
  { intros k v [Hne ->]%customerStats_entry.
    by apply customerTotals_entry. }
  assert (∀ k v a, (k, v) ∈ customerStats monthTxs →
            (k, a) ∈ customerTotals monthTxs → v.1 = a) as Hsame.
  { intros k v a [_ ->]%customerStats_entry [_ ->]%customerTotals_entry.
    done. }
  unfold top, rankings. cbn [getDashboardStats topCustomer amount customer].
  unfold getMonthlyRankings. cbv zeta. cbn [default]. fold monthTxs.
  set (unranked := unrankedRankings customers (customerStats monthTxs)).
  pose proof (Array_sort_Permutation r_totalAmount unranked) as Hperm.
  destruct (topScan_spec (customerTotals monthTxs))
    as [[Hall Htop]|(Hlt & m1 & m2 & Hm & H1 & H2)].
  - rewrite Htop. cbn [fst snd]. split; [|lia].
    intros r (i & r0 & -> & Hr0%list_elem_of_lookup_2)%elem_of_lookup_imap.
    cbn. rewrite Hperm in Hr0.
    apply unrankedRankings_elem_of in Hr0
      as ([k v] & j & He & _ & _ & -> & _).
    apply Hstats in He. rewrite Forall_forall in Hall.
    by apply Hall in He.
  - destruct (topScan (customerTotals monthTxs)) as [topId topAmount].
    cbn [fst snd] in *. rewrite Forall_forall in H1, H2.
    assert (∀ k v, (k, v) ∈ customerStats monthTxs → v.1 ≤ topAmount)
      as Hbound.
    { intros k v He. apply Hstats in He. rewrite Hm in He.
      apply elem_of_app in He as [He|He]; [apply H1 in He; cbn in He; lia|].
      apply elem_of_cons in He as [[= _ ->]|He]; [lia|]. by apply H2 in He. }
    split.
    + intros r (i & r0 & -> & Hr0%list_elem_of_lookup_2)%elem_of_lookup_imap.
      cbn. rewrite Hperm in Hr0.
      apply unrankedRankings_elem_of in Hr0
        as ([k v] & j & He & _ & _ & -> & _).
      by eapply Hbound.
    + intros c _ Hc.
      pose proof (customerStats_keys monthTxs) as Hkeys.
      rewrite Hm, fmap_app, fmap_cons in Hkeys.
      apply fmap_app_inv in Hkeys as (s1 & s2' & Hs1 & Hs2 & Hsplit).
      symmetry in Hs2.
      apply fmap_cons_inv in Hs2 as ([k v] & s2 & Hk & Hs2 & ->).
      cbn in Hk. subst k.
      assert (v.1 = topAmount) as Hv.
      { apply (Hsame topId); rewrite ?Hsplit, ?Hm;
          apply elem_of_app; right; apply list_elem_of_here. }
      assert (∀ e, e ∈ s1 → e.2.1 < topAmount) as Hs1lt.
      { intros [k w] He. cbn.
        assert (k ∈ m1.*1) as ([k' a] & -> & Ha)%list_elem_of_fmap.
        { rewrite Hs1. apply list_elem_of_fmap. by exists (k, w). }
        cbn in *. rewrite (Hsame k' w a).
        - by apply H1 in Ha.
        - rewrite Hsplit. apply elem_of_app. by left.
        - rewrite Hm. apply elem_of_app. by left. }
      assert (∀ e, e ∈ s2 → e.2.1 ≤ topAmount) as Hs2le.
      { intros [k w] He. apply (Hbound k). rewrite Hsplit.
        apply elem_of_app. right. by apply elem_of_cons; right. }
      unfold unranked. rewrite unrankedRankings_omap, Hsplit, omap_app.
      cbn [omap list_omap]. cbn [fst snd]. rewrite Hc.
      edestruct (Array_sort_head r_totalAmount) as [s ->].
      * intros y (e & He & Hy)%list_elem_of_omap.
        destruct (snd <$> list_find (λ c', c_id c' = e.1) customers);
          [|done].
        injection Hy as <-. cbn. rewrite Hv. by apply Hs1lt.
      * intros y (e & He & Hy)%list_elem_of_omap.
        destruct (snd <$> list_find (λ c', c_id c' = e.1) customers);
          [|done].
        injection Hy as <-. cbn. rewrite Hv. by apply Hs2le.
      * rewrite imap_cons. cbn. eexists. split_and!; done.
Qed.

End dashboard_and_rankings.

(** ** Further examples *)

Section more_examples.
#[local] Existing Instance UTC.runtime.

Ltac by_evaluation := apply (bool_decide_unpack _); vm_compute; exact I.
Ltac at_index i := apply (list_elem_of_lookup_2 _ i); vm_compute; reflexivity.

(** A customer added under a fresh id and deleted again leaves the store as
    it was. *)
Lemma addCustomer_found_and_deleted_witness :
  let st :=
    mkStore [Sample.bob]
      [Sample.tx "t2" "c2" "2024-03-02T10:00:00.000Z" 1200 200 partial] [] in
  exec (deleteCustomer "c7")
    (exec (addCustomer "c7" "2024-03-15T10:30:00.000Z" Sample.alice) st)
  = st.
Proof.
  intros st.
  apply (addCustomer_found_and_deleted st "c7" "2024-03-15T10:30:00.000Z"
           Sample.alice); by_evaluation.
Defined.


(** Deleting Alice leaves Bob and his transactions alone. *)
Lemma deleteCustomer_idempotent_frame_witness :
  let st := mkStore [Sample.alice; Sample.bob] Sample.ledger [] in
  filter (λ c, c_id c = "c2"%string)
    (s_customers (exec (deleteCustomer "c1") st))
  = filter (λ c, c_id c = "c2"%string) (s_customers st)
  ∧ eval (getCustomerTransactions "c2") (exec (deleteCustomer "c1") st)
    = eval (getCustomerTransactions "c2") st
  ∧ eval (getCustomerPayments "c2") (exec (deleteCustomer "c1") st)
    = eval (getCustomerPayments "c2") st.
Proof.
  intros st.
  apply (deleteCustomer_idempotent_frame st "c1" "c2"). discriminate.
Defined.

(** Three payments, one of them for a transaction that does not exist:
    t2 receives 300 + 700 and is paid, t1 is untouched. *)
Lemma addPayments_ledger_consistent_witness :
  let st := mkStore [Sample.alice; Sample.bob] Sample.ledger [] in
  let calls :=
    [("p1", Sample.pay "t2" "c2" 300); ("p2", Sample.pay "t9" "c2" 50);
     ("p3", Sample.pay "t2" "c2" 700)]%string in
  let st' := exec (addPayments calls) st in
  s_payments st' = reverse (recorded <$> calls) ++ s_payments st
  ∧ t_id <$> s_transactions st' = t_id <$> s_transactions st
  ∧ ∀ i tx, s_transactions st !! i = Some tx →
      let paidFor :=
        filter (λ p, pay_transactionId p = t_id tx) (recorded <$> calls) in
      ∃ tx',
        s_transactions st' !! i = Some tx'
        ∧ t_id tx' = t_id tx
        ∧ t_totalAmount tx' = t_totalAmount tx
        ∧ t_amountPaid tx' = t_amountPaid tx + sum_of pay_amount paidFor
        ∧ (paidFor = [] → tx' = tx)
        ∧ (paidFor ≠ [] → status_rule tx').
Proof.
  intros st calls.
  apply (addPayments_ledger_consistent st calls). by_evaluation.
Defined.

(** Alice's record edited from the form: the typed fields are stored, id and
    creation date stay. *)
Lemma EditCustomer_handleSave_effect_witness :
  let st := mkStore [Sample.bob; Sample.alice] Sample.ledger [] in
  let st' :=
    exec (EditCustomer_handleSave Forms.trim Sample.alice Forms.typed
            "2024-03-15T10:30:00.000Z") st in
  (exec (EditCustomer_handleSave Forms.trim Sample.alice Forms.blank
           "2024-03-15T10:30:00.000Z") st = st)
  ∧ ∃ c',
      s_customers st' = <[1%nat := c']> (s_customers st)
      ∧ c_id c' = "c1"%string
      ∧ c_createdAt c' = "2024-01-05T09:00:00.000Z"%string
      ∧ c_cardImageUri c' = None
      ∧ c_updatedAt c' = "2024-03-15T10:30:00.000Z"%string
      ∧ mkFormData (c_name c') (c_businessName c') (c_mobile c')
          (c_email c') (c_address c') (c_businessType c') = Forms.typed.
Proof.
  intros st st'. split.
  - destruct (EditCustomer_handleSave_effect Forms.trim st Sample.alice
                Forms.blank "2024-03-15T10:30:00.000Z") as [Hblank _].
    apply Hblank. vm_compute. reflexivity.
  - destruct (EditCustomer_handleSave_effect Forms.trim st Sample.alice
                Forms.typed "2024-03-15T10:30:00.000Z") as [_ Hsave].
    destruct Hsave as (_ & _ & _ & _ & Hfound); [by_evaluation|].
    apply (Hfound 1%nat Sample.alice). vm_compute. reflexivity.
Defined.

(** A scanned card confirmed without an existing customer: a new customer
    is stored at the head under the fresh id. *)
Lemma ConfirmDetails_handleSave_effect_witness :
  let st := mkStore [Sample.bob] Sample.ledger [] in
  let st' :=
    exec (ConfirmDetails_handleSave Forms.trim Forms.typed "file:card.jpg"
            None "c7" "2024-03-15T10:30:00.000Z") st in
  ∃ c, s_customers st' = c :: s_customers st
       ∧ c_id c = "c7"%string
       ∧ c_createdAt c = "2024-03-15T10:30:00.000Z"%string
       ∧ c_updatedAt c = "2024-03-15T10:30:00.000Z"%string
       ∧ c_cardImageUri c = Some "file:card.jpg"%string
       ∧ mkFormData (c_name c) (c_businessName c) (c_mobile c)
           (c_email c) (c_address c) (c_businessType c) = Forms.typed.
Proof.
  intros st st'.
  destruct (ConfirmDetails_handleSave_effect Forms.trim st Forms.typed
              "file:card.jpg" None "c7" "2024-03-15T10:30:00.000Z")
    as (_ & _ & _ & Hsave).
  destruct Hsave as [Hnew _]; [by_evaluation|]. apply Hnew. by left.
Defined.



(** Alice, ranked first for March 2024: two transactions, 1500 in all. *)
Lemma getMonthlyRankings_entries_witness :
  let monthTxs :=
    filter (in_calendar_month 2 2024) Sample.ledger in
  let r := mkRankedCustomer Sample.alice 1 1500 2 in
  snd <$> list_find (λ c, c_id c = "c1"%string) [Sample.alice; Sample.bob]
    = Some Sample.alice
  ∧ r_totalAmount r
    = sum_of t_totalAmount
        (filter (λ t, t_customerId t = "c1"%string) monthTxs)
  ∧ r_transactionCount r
    = length (filter (λ t, t_customerId t = "c1"%string) monthTxs)
  ∧ (1 ≤ r_transactionCount r)%nat.
Proof.
  intros monthTxs r.
  destruct (getMonthlyRankings_entries Sample.now [Sample.alice; Sample.bob]
              Sample.ledger None None) as [Hentries _].
  apply (Hentries r). at_index 0%nat.
Defined.

(** What Alice bought most: sugar, 2 + 4 = 6 units over her two sales. *)
Lemma getCustomerStats_topProducts_witness :
  let items :=
    filter (λ t, t_customerId t = "c1"%string) Catalogue.sales
    ≫= t_products in
  let e := mkProductQuantity "Sugar" 6 in
  filter (λ p, p_name p = "Sugar"%string) items ≠ []
  ∧ pq_quantity e
    = sum_of p_quantity (filter (λ p, p_name p = "Sugar"%string) items).
Proof.
  intros items e.
  destruct (getCustomerStats_topProducts "c1" Catalogue.sales)
    as (_ & _ & _ & Hentries & _).
  apply (Hentries e). at_index 0%nat.
Defined.

(** The two best-selling products since February 2024: tea and sugar, the
    sale of January left out; rice is not listed, with a smaller revenue
    than either. *)
Lemma getTopProducts_top_witness :
  let startDate := Some (UTC.parse "2024-02-01T00:00:00.000Z") in
  let items :=
    filter (not_outside startDate None) Catalogue.sales ≫= t_products in
  let sold name := filter (λ p, p_name p = name) items in
  let top := getTopProducts Catalogue.sales 2 startDate None in
  top = [mkProductRevenue "Tea" 13 520; mkProductRevenue "Sugar" 2 100]
  ∧ (length top ≤ Z.to_nat 2)%nat
  ∧ StronglySorted (λ a b, pr_revenue a >= pr_revenue b) top
  ∧ NoDup (pr_name <$> top)
  ∧ (∀ e, e ∈ top →
       sold (pr_name e) ≠ []
       ∧ pr_quantity e = sum_of p_quantity (sold (pr_name e))
       ∧ pr_revenue e = sum_of p_total (sold (pr_name e)))
  ∧ (∀ p, p ∈ items →
       (∃ e, e ∈ top ∧ pr_name e = p_name p)
       ∨ (length top = Z.to_nat 2
          ∧ ∀ e, e ∈ top → pr_revenue e >= sum_of p_total (sold (p_name p)))).
Proof.
  intros startDate items sold top. split; [reflexivity|].
  apply (getTopProducts_top Catalogue.sales 2 startDate None). lia.
Defined.

(** The export of the sample ledger: Alice 1800 and Bob 1200 make the 3000
    of the report. *)
Lemma exportCustomersRows_totals_witness :
  let rows := exportCustomersRows [Sample.alice; Sample.bob] Sample.ledger in
  let report :=
    generateReportSummary [Sample.alice; Sample.bob] Sample.ledger in
  row_totalPurchased <$> rows = [1800; 1200]
  ∧ sum_of row_totalPurchased rows = rs_totalRevenue report
  ∧ sum_of row_amountPaid rows = rs_totalCollected report
  ∧ sum_of row_amountPending rows = rs_pendingCollection report.
Proof.
  intros rows report. split; [reflexivity|].
  assert (NoDup (c_id <$> [Sample.alice; Sample.bob])) as Hids
    by by_evaluation.
  assert (∀ t, t ∈ Sample.ledger →
               t_customerId t ∈ c_id <$> [Sample.alice; Sample.bob])
    as Hrefs by (apply Forall_forall; by_evaluation).
  apply (exportCustomersRows_totals [Sample.alice; Sample.bob] Sample.ledger
           Hids Hrefs).
Defined.

(** March 2024 under the UTC runtime: the chart of three months ends with
    the 2700 of the dashboard. *)
Lemma getRevenueChartData_last_thisMonth_witness :
  last (data (getRevenueChartData Sample.now Sample.ledger 3 None None))
  = Some (thisMonthRevenue
            (getDashboardStats Sample.now [Sample.alice; Sample.bob]
               Sample.ledger))
  ∧ thisMonthRevenue
      (getDashboardStats Sample.now [Sample.alice; Sample.bob] Sample.ledger)
    = 2700.
Proof.
  split; [|reflexivity].
  apply (getRevenueChartData_last_thisMonth Sample.now
           [Sample.alice; Sample.bob] Sample.ledger 3 None None).
  - lia.
  - by left.
  - vm_compute. reflexivity.
  - vm_compute. reflexivity.
Defined.

(** On 15 March 2024 the unpaid sale of 10 February to Alice is 34 days old:
    the reminder is worded as overdue, by 4 days. *)
Lemma checkAndNotifyPendingPayments_reminders_witness :
  let r := mkReminder "Alice" 300 (Some 4) in
  ∃ tx c txTime,
    tx ∈ Sample.ledger
    ∧ snd <$> list_find (λ c, c_id c = t_customerId tx)
                [Sample.alice; Sample.bob] = Some c
    ∧ Date_parse (t_date tx) = Some txTime
    ∧ txTime < Sample.now
    ∧ rem_customerName r = c_name c
    ∧ rem_amount r = t_totalAmount tx - t_amountPaid tx
    ∧ 0 < rem_amount r
    ∧ rem_daysOverdue r = Some ((Sample.now - txTime) / 86400000 - 30)
    ∧ (rem_overdue r = true ↔ 31 * 86400000 ≤ Sample.now - txTime).
Proof.
  intros r.
  destruct (checkAndNotifyPendingPayments_reminders true Sample.now
              Sample.ledger [Sample.alice; Sample.bob]) as (_ & _ & Hr).
  apply (Hr r). at_index 1%nat.
Defined.

(** March 2024 on the sample ledger: the dashboard's top customer, Alice
    with 1500, is ranked first. *)
Lemma getDashboardStats_topCustomer_ranked_first_witness :
  ∃ r,
    head (getMonthlyRankings Sample.now [Sample.alice; Sample.bob]
            Sample.ledger None None) = Some r
    ∧ r_customer r = Sample.alice ∧ r_rank r = 1%nat
    ∧ r_totalAmount r
      = amount (topCustomer
                  (getDashboardStats Sample.now [Sample.alice; Sample.bob]
                     Sample.ledger)).
Proof.
  destruct (getDashboardStats_topCustomer_ranked_first Sample.now
              [Sample.alice; Sample.bob] Sample.ledger) as [_ Hfirst].
  apply (Hfirst Sample.alice).
  - vm_compute. reflexivity.
  - vm_compute. reflexivity.
Defined.

(** The first sale of the catalogue in the export: 5 units for 220, nothing
    due, to Alice; without her record the row reads Unknown. *)
Lemma exportTransactionsRows_totals_witness :
  let t1 :=
    Catalogue.sale "t1" "c1" "2024-03-01T10:00:00.000Z"
      [Catalogue.item "Tea" 3 40; Catalogue.item "Sugar" 2 50] 220 paid in
  ∃ row,
    exportTransactionsRows Catalogue.sales [Sample.bob] !! 0%nat = Some row
    ∧ trow_totalAmount row = 220
    ∧ trow_pending row = 0
    ∧ trow_totalQty row = 5
    ∧ trow_customerName row = "Unknown"%string.
Proof.
  intros t1.
  destruct (exportTransactionsRows_totals Catalogue.sales [Sample.bob])
    as (_ & _ & _ & _ & Hrows).
  destruct (Hrows 0%nat t1) as (row & Hrow & Htotal & _ & Hpending & _ & Hqty
                                & Hname); [reflexivity|].
  exists row. split_and!; [done|done|done|done|]. by apply Hname.
Defined.

End more_examples.
